(** * AirportSearch API: the request path of [app/main.py]

    A shallow embedding of the FastAPI application of the repository:
    the ORM tables of [app/models.py], the response schemas of
    [app/schemas.py], and the two functions of [app/main.py] that decide
    every request, [verify_api_key] and [get_airports_by_name].

    The relational store is a record of tables (lists of rows in storage
    order).  Code that talks to the store runs in a small monad that reads
    the store, may raise an [HTTPException], and records every statement
    sent to the store, so that the order of the statements of one request
    can be stated and proved. *)

From Stdlib Require Import Bool List String Ascii ZArith Lia Floats Permutation.
Import ListNotations.
Local Open Scope string_scope.
Local Open Scope list_scope.

(* ------------------------------------------------------------------ *)
(** * SQL values and operators *)
(* ------------------------------------------------------------------ *)

(** Column types of SQLAlchemy: [Integer], [String]/[Text], [Float],
    [Boolean].  A nullable column is an [option]. *)
Definition Integer := Z.
Definition Float := PrimFloat.float.

(** SQL's three-valued truth: [None] is NULL. *)
Definition sql_bool := option bool.

Definition sql_or (a b : sql_bool) : sql_bool :=
  match a, b with
  | Some true, _ => Some true
  | _, Some true => Some true
  | Some false, Some false => Some false
  | _, _ => None
  end.

(** A WHERE clause, a join condition and [IS true] keep a row only when
    the condition is true; NULL drops it. *)
Definition is_true (v : sql_bool) : bool :=
  match v with
  | Some true => true
  | _ => false
  end.

(** [a = b] on nullable strings: NULL on a NULL side. *)
Definition sql_eq (a b : option string) : sql_bool :=
  match a, b with
  | Some x, Some y => Some (String.eqb x y)
  | _, _ => None
  end.

(** Case folding of the store's ILIKE, on the ASCII letters.  Text is
    read as bytes: on ASCII text this is what the store does; on other
    text the store folds by locale and counts characters, not bytes, so
    every theorem that says which strings a pattern matches is stated
    for ASCII text ([ascii_text] below). *)
Definition lower (c : ascii) : ascii :=
  let n := nat_of_ascii c in
  if (65 <=? n)%nat && (n <=? 90)%nat then ascii_of_nat (n + 32) else c.

Definition char_ieq (a b : ascii) : bool := Ascii.eqb (lower a) (lower b).

(** The store is PostgreSQL ([DATABASE_URL] of [app/database.py]); this is
    its ILIKE operator, which [Column.ilike] compiles to.
    The pattern language of LIKE: [%] matches any run of characters,
    [_] any one character, the escape character (backslash, the store's
    default) makes the next pattern character literal, every other
    character matches itself, here up to case.  A pattern that ends in a
    lone escape character is refused by the store; patterns built by
    [like_pattern] below never do, see [like_pattern_escape_closed]. *)
Definition wild_many : ascii := "%"%char.
Definition wild_one : ascii := "_"%char.
Definition escape : ascii := "\"%char.

Fixpoint ilike_match (p t : string) : bool :=
  match p with
  | EmptyString =>
      match t with
      | EmptyString => true
      | String _ _ => false
      end
  | String c p' =>
      if Ascii.eqb c wild_many then
        (fix scan (u : string) : bool :=
           ilike_match p' u
           || match u with
              | EmptyString => false
              | String _ u' => scan u'
              end) t
      else if Ascii.eqb c wild_one then
        match t with
        | EmptyString => false
        | String _ t' => ilike_match p' t'
        end
      else if Ascii.eqb c escape then
        match p' with
        | EmptyString => false
        | String e p'' =>
            match t with
            | EmptyString => false
            | String x t' => char_ieq e x && ilike_match p'' t'
            end
        end
      else
        match t with
        | EmptyString => false
        | String x t' => char_ieq c x && ilike_match p' t'
        end
  end.

(** [column.ilike(pattern)]: NULL on a NULL column. *)
Definition ilike (column : option string) (pattern : string) : sql_bool :=
  match column with
  | Some t => Some (ilike_match pattern t)
  | None => None
  end.

(** A pattern has no lone escape character at its end. *)
Fixpoint escape_closed (p : string) : bool :=
  match p with
  | EmptyString => true
  | String c p' =>
      if Ascii.eqb c escape then
        match p' with
        | EmptyString => false
        | String _ p'' => escape_closed p''
        end
      else escape_closed p'
  end.

(* ------------------------------------------------------------------ *)
(** * app/models.py: the tables *)
(* ------------------------------------------------------------------ *)

Module AirportType.
Record t := mk {
    code : string;
    description : option string
}.
End AirportType.

Module APIKey.
Record t := mk {
    id : Integer;
    key : string;
    is_active : option bool
}.
End APIKey.

Module Country.
Record t := mk {
    id : option Integer;
    code : string;
    name : option string;
    continent : option string;
    wikipedia_link : option string;
    keywords : option string
}.
End Country.

Module NavidType.
Record t := mk {
    code : string;
    description : option string
}.
End NavidType.

Module Region.
Record t := mk {
    id : option Integer;
    code : string;
    local_code : option string;
    name : option string;
    continent : option string;
    iso_country : option string;
    wikipedia_link : option string;
    keywords : option string
}.
End Region.

Module Frequency.
Record t := mk {
    id : Integer;
    airport_ref : option Integer;
    airport_ident : option string;
    type : option string;
    description : option string;
    frequency_mhz : option Float
}.
End Frequency.

Module Navaid.
Record t := mk {
    id : Integer;
    filename : option string;
    ident : option string;
    name : option string;
    type : option string;
    frequency_khz : option Integer;
    latitude_deg : option Float;
    longitude_deg : option Float;
    elevation_ft : option Integer;
    iso_country : option string;
    dme_frequency_khz : option Integer;
    dme_channel : option string;
    dme_latitude_deg : option Float;
    dme_longitude_deg : option Float;
    dme_elevation_ft : option Integer;
    slaved_variation_deg : option string;
    magnetic_variation_deg : option Float;
    usagetype : option string;
    power : option string;
    associated_airport : option string
}.
End Navaid.

Module Runway.
Record t := mk {
    id : Integer;
    airport_ref : option Integer;
    airport_ident : option string;
    length_ft : option Integer;
    width_ft : option Integer;
    surface : option string;
    lighted : option Integer;
    closed : option Integer;
    le_ident : option string;
    le_latitude_deg : option Float;
    le_longitude_deg : option Float;
    le_elevation_ft : option Integer;
    le_heading_degt : option Integer;
    le_displaced_threshold_ft : option Integer;
    he_ident : option string;
    he_latitude_deg : option Float;
    he_longitude_deg : option Float;
    he_elevation_ft : option Integer;
    he_heading_degt : option Integer;
    he_displaced_threshold_ft : option Integer
}.
End Runway.

Module Airport.
(** The columns of table [airports]. *)
Record t := mk {
    id : option Integer;
    ident : string;
    type : option string;
    name : option string;
    latitude_deg : option Float;
    longitude_deg : option Float;
    elevation_ft : option Integer;
    continent : option string;
    iso_country : option string;
    iso_region : option string;
    municipality : option string;
    scheduled_service : option string;
    gps_code : option string;
    iata_code : option string;
    local_code : option string;
    home_link : option string;
    wikipedia_link : option string;
    keywords : option string
}.

(** An instance as the query of [get_airports_by_name] loads it: the
    columns and the four relationships named in its [joinedload]
    options.  [frequencies] and [runways] keep the default loader
    (lazy select): they are not part of the loaded state and are
    fetched from the session when the attribute is read. *)
Record loaded := mk_loaded {
    columns : t;
    airport_type : option AirportType.t;
    country : option Country.t;
    region : option Region.t;
    navaids : list Navaid.t
}.
End Airport.

(** The data store: one list of rows per table, in storage order. *)
Record Database := mk_database {
  airport_types : list AirportType.t;
  api_keys : list APIKey.t;
  countries : list Country.t;
  navid_types : list NavidType.t;
  regions : list Region.t;
  frequencies : list Frequency.t;
  navaids : list Navaid.t;
  runways : list Runway.t;
  airports : list Airport.t
}.

(** The declared constraints of [app/models.py] that the proofs rely on:
    [primary_key=True] on [airports.ident], [airport_types.code],
    [countries.code] and [regions.code]. *)
Definition airports_pk (db : Database) : Prop :=
  NoDup (map Airport.ident (airports db)).
Definition airport_types_pk (db : Database) : Prop :=
  NoDup (map AirportType.code (airport_types db)).
Definition countries_pk (db : Database) : Prop :=
  NoDup (map Country.code (countries db)).
Definition regions_pk (db : Database) : Prop :=
  NoDup (map Region.code (regions db)).

(* ------------------------------------------------------------------ *)
(** * app/schemas.py: the response shape *)
(* ------------------------------------------------------------------ *)

(** [AirportTypeSchema], [CountrySchema], [RegionSchema], [RunwaySchema],
    [FrequencySchema] and [NavaidSchema] list exactly the columns of
    their tables, in the same order, and are read from the ORM instance
    ([orm_mode]); the row records serve as their values.
    [AirportSchema] adds the six relationship fields to the columns. *)
Module AirportSchema.
Record t := mk {
    id : option Integer;
    ident : string;
    type : option string;
    name : option string;
    latitude_deg : option Float;
    longitude_deg : option Float;
    elevation_ft : option Integer;
    continent : option string;
    iso_country : option string;
    iso_region : option string;
    municipality : option string;
    scheduled_service : option string;
    gps_code : option string;
    iata_code : option string;
    local_code : option string;
    home_link : option string;
    wikipedia_link : option string;
    keywords : option string;
    airport_type : option AirportType.t;
    country : option Country.t;
    region : option Region.t;
    runways : list Runway.t;
    frequencies : list Frequency.t;
    navaids : list Navaid.t
}.

(** The eighteen scalar fields of a response object, as a table row. *)
Definition columns (v : t) : Airport.t :=
  Airport.mk (id v) (ident v) (type v) (name v) (latitude_deg v)
    (longitude_deg v) (elevation_ft v) (continent v) (iso_country v)
    (iso_region v) (municipality v) (scheduled_service v) (gps_code v)
    (iata_code v) (local_code v) (home_link v) (wikipedia_link v)
    (keywords v).
End AirportSchema.

(* ------------------------------------------------------------------ *)
(** * Requests against the store *)
(* ------------------------------------------------------------------ *)

(** [fastapi.HTTPException(status_code, detail)]. *)
Record HTTPException := mk_exception {
  status_code : Z;
  detail : string
}.

Definition HTTP_200_OK : Z := 200.
Definition HTTP_401_UNAUTHORIZED : Z := 401.
Definition HTTP_404_NOT_FOUND : Z := 404.

(** The statements a request sends to the store. *)
Inductive Statement :=
| SelectAPIKey (key : string)
| SelectAirports (like_pattern : string)
| SelectRunways (airport_ident : string)
| SelectFrequencies (airport_ident : string).

Inductive Outcome (A : Type) :=
| Return (a : A)
| Raise (e : HTTPException).
Arguments Return {A} a.
Arguments Raise {A} e.

(** A computation of one request: it reads the store through its session,
    appends the statements it executes to the log, and returns a value or
    raises. *)
Definition Session (A : Type) : Type :=
  Database -> list Statement -> Outcome A * list Statement.

Definition ret {A} (a : A) : Session A :=
  fun _ log => (Return a, log).

Definition raise {A} (e : HTTPException) : Session A :=
  fun _ log => (Raise e, log).

Definition bind {A B} (m : Session A) (k : A -> Session B) : Session B :=
  fun db log =>
    match m db log with
    | (Return a, log') => k a db log'
    | (Raise e, log') => (Raise e, log')
    end.

(** Send statement [s]; the rows are computed by [rows] on the store. *)
Definition execute {A} (s : Statement) (rows : Database -> A) : Session A :=
  fun db log => (Return (rows db), log ++ [s]).

Notation "x <- m ;; k" := (bind m (fun x => k))
  (at level 61, m at next level, right associativity).
Notation "m ;;; k" := (bind m (fun _ => k))
  (at level 61, right associativity).

Fixpoint for_each {A B} (f : A -> Session B) (l : list A) : Session (list B) :=
  match l with
  | [] => ret []
  | x :: l' =>
      y <- f x ;;
      ys <- for_each f l' ;;
      ret (y :: ys)
  end.

(* ------------------------------------------------------------------ *)
(** * app/main.py: API key security *)
(* ------------------------------------------------------------------ *)

(** Python's truth value of the header: [None] and the empty string are
    falsy. *)
Definition truthy (api_key : option string) : bool :=
  match api_key with
  | None => false
  | Some EmptyString => false
  | Some (String _ _) => true
  end.

(** [db.query(models.APIKey).filter(key == api_key,
    is_active.is_(True)).first()] *)
Definition api_key_filter (api_key : string) (r : APIKey.t) : bool :=
  String.eqb (APIKey.key r) api_key && is_true (APIKey.is_active r).

Definition query_api_key (api_key : string) : Session (option APIKey.t) :=
  execute (SelectAPIKey api_key)
          (fun db => find (api_key_filter api_key) (api_keys db)).

(** The value compared with column [key]; only read when the header is
    truthy, hence present. *)
Definition header_value (api_key : option string) : string :=
  match api_key with
  | Some k => k
  | None => EmptyString
  end.

Definition verify_api_key (api_key : option string) : Session unit :=
  if negb (truthy api_key) then
    raise (mk_exception HTTP_401_UNAUTHORIZED "Missing API key")
  else
    db_key <- query_api_key (header_value api_key) ;;
    match db_key with
    | None =>
        raise (mk_exception HTTP_401_UNAUTHORIZED "Invalid or inactive API key")
    | Some _ => ret tt
    end.

(* ------------------------------------------------------------------ *)
(** * app/main.py: the airport query *)
(* ------------------------------------------------------------------ *)

(** [like_pattern = f"%{name}%"] *)
Definition like_pattern (name : string) : string :=
  String wild_many (name ++ String wild_many EmptyString).

(** [.where(Airport.name.ilike(like_pattern) |
            Airport.ident.ilike(like_pattern))] *)
Definition where_clause (pattern : string) (a : Airport.t) : bool :=
  is_true (sql_or (ilike (Airport.name a) pattern)
                  (ilike (Some (Airport.ident a)) pattern)).

(** The join conditions of the four eager relationships.  The three
    many-to-one ones follow the foreign keys of [airports]; the codes are
    primary keys, so at most one row joins. *)
Definition join_airport_type (db : Database) (a : Airport.t)
  : option AirportType.t :=
  find (fun x => is_true (sql_eq (Airport.type a) (Some (AirportType.code x))))
       (airport_types db).

Definition join_country (db : Database) (a : Airport.t) : option Country.t :=
  find (fun x => is_true (sql_eq (Airport.iso_country a) (Some (Country.code x))))
       (countries db).

Definition join_region (db : Database) (a : Airport.t) : option Region.t :=
  find (fun x => is_true (sql_eq (Airport.iso_region a) (Some (Region.code x))))
       (regions db).

(** [primaryjoin="Airport.ident == foreign(Navaid.associated_airport)"] *)
Definition navaid_join (a : Airport.t) (n : Navaid.t) : bool :=
  is_true (sql_eq (Some (Airport.ident a)) (Navaid.associated_airport n)).

(** One row of the joined SELECT. *)
Record JoinedRow := mk_row {
  row_airport : Airport.t;
  row_airport_type : option AirportType.t;
  row_country : option Country.t;
  row_region : option Region.t;
  row_navaid : option Navaid.t
}.

(** LEFT OUTER JOIN navaids: one row per navaid of the airport, and one
    row with a NULL navaid when it has none. *)
Definition outer_join_navaids (db : Database) (a : Airport.t)
  : list (option Navaid.t) :=
  match filter (navaid_join a) (navaids db) with
  | [] => [None]
  | n :: ns => map Some (n :: ns)
  end.

Definition joined_rows (db : Database) (a : Airport.t) : list JoinedRow :=
  map (mk_row a (join_airport_type db a) (join_country db a) (join_region db a))
      (outer_join_navaids db a).

(** The rows of the statement of [get_airports_by_name].  The statement
    has no ORDER BY: the store may return the rows in any order.  The
    model lists them in table order; the theorems on the response speak
    of membership, never of position. *)
Definition select_airports (pattern : string) (db : Database) : list JoinedRow :=
  filter (fun r => where_clause pattern (row_airport r))
         (flat_map (joined_rows db) (airports db)).

(** [result.unique()]: keep the first row of every airport identity (its
    primary key), drop the later ones. *)
Fixpoint unique (seen : list string) (rows : list JoinedRow) : list JoinedRow :=
  match rows with
  | [] => []
  | r :: rows' =>
      let i := Airport.ident (row_airport r) in
      if existsb (String.eqb i) seen then unique seen rows'
      else r :: unique (i :: seen) rows'
  end.

(** The joined loader fills the [navaids] collection of an instance from
    all the rows of that instance.  (On a store that breaks the primary
    key of [airports] the ORM keeps each navaid once where this list
    repeats it; no theorem counts the navaids of an object.) *)
Definition collect_navaids (i : string) (rows : list JoinedRow) : list Navaid.t :=
  flat_map (fun r =>
              if String.eqb (Airport.ident (row_airport r)) i then
                match row_navaid r with
                | Some n => [n]
                | None => []
                end
              else [])
           rows.

Definition load (rows : list JoinedRow) (r : JoinedRow) : Airport.loaded :=
  Airport.mk_loaded (row_airport r) (row_airport_type r) (row_country r)
    (row_region r) (collect_navaids (Airport.ident (row_airport r)) rows).

(** [result.unique().scalars().all()] *)
Definition unique_scalars_all (rows : list JoinedRow) : list Airport.loaded :=
  map (load rows) (unique [] rows).

Definition get_airports_by_name (name : string) : Session (list Airport.loaded) :=
  let like_pattern := like_pattern name in
  result <- execute (SelectAirports like_pattern) (select_airports like_pattern) ;;
  let airports := unique_scalars_all result in
  match airports with
  | [] =>
      raise (mk_exception HTTP_404_NOT_FOUND
                          "No airport found with that name or ident")
  | _ :: _ => ret airports
  end.

(* ------------------------------------------------------------------ *)
(** * Response serialization ([response_model=list[AirportSchema]]) *)
(* ------------------------------------------------------------------ *)

(** Reading [airport.runways] and [airport.frequencies] runs the lazy
    loader: a SELECT on the child table by [airport_ident]. *)
Definition load_runways (i : string) : Session (list Runway.t) :=
  execute (SelectRunways i)
    (fun db => filter (fun r => is_true (sql_eq (Runway.airport_ident r) (Some i)))
                      (runways db)).

Definition load_frequencies (i : string) : Session (list Frequency.t) :=
  execute (SelectFrequencies i)
    (fun db => filter (fun f => is_true (sql_eq (Frequency.airport_ident f) (Some i)))
                      (frequencies db)).

(** Fields are read in the order of their declaration in the schema. *)
Definition from_orm (a : Airport.loaded) : Session AirportSchema.t :=
  let c := Airport.columns a in
  runways <- load_runways (Airport.ident c) ;;
  frequencies <- load_frequencies (Airport.ident c) ;;
  ret (AirportSchema.mk
         (Airport.id c) (Airport.ident c) (Airport.type c) (Airport.name c)
         (Airport.latitude_deg c) (Airport.longitude_deg c)
         (Airport.elevation_ft c) (Airport.continent c)
         (Airport.iso_country c) (Airport.iso_region c)
         (Airport.municipality c) (Airport.scheduled_service c)
         (Airport.gps_code c) (Airport.iata_code c) (Airport.local_code c)
         (Airport.home_link c) (Airport.wikipedia_link c) (Airport.keywords c)
         (Airport.airport_type a) (Airport.country a) (Airport.region a)
         runways frequencies (Airport.navaids a)).

Definition serialize_response (airports : list Airport.loaded)
  : Session (list AirportSchema.t) :=
  for_each from_orm airports.

(* ------------------------------------------------------------------ *)
(** * The application *)
(* ------------------------------------------------------------------ *)

(** A request to [GET /airportByName/{name}]: the header [x-api-key]
    ([None] when the header is not sent) and the decoded path parameter. *)
Record Request := mk_request {
  x_api_key : option string;
  name : string
}.

Inductive Content :=
| Airports (l : list AirportSchema.t)
| Detail (d : string).

Record Response := mk_response {
  status : Z;
  content : Content
}.

(** [FastAPI(dependencies=[Depends(verify_api_key)])]: the dependencies of
    the application, solved in order before the endpoint is called. *)
Definition dependencies : list (Request -> Session unit) :=
  [fun req => verify_api_key (x_api_key req)].

(** The route [GET /airportByName/{name}]: the handler, then the
    serialization of what it returned under the response model. *)
Definition endpoint (name : string) : Session (list AirportSchema.t) :=
  airports <- get_airports_by_name name ;;
  serialize_response airports.

Definition handle (req : Request) : Session (list AirportSchema.t) :=
  for_each (fun d => d req) dependencies ;;;
  endpoint (name req).

(** The response and the statements the request sent, in order.  A raised
    [HTTPException] becomes a response with its status and detail.  This
    is the application up to the rendering of the body; [serve] below
    adds the two ways a request ends in a server error. *)
Definition app (req : Request) (db : Database) : Response * list Statement :=
  match handle req db [] with
  | (Return l, log) => (mk_response HTTP_200_OK (Airports l), log)
  | (Raise e, log) => (mk_response (status_code e) (Detail (detail e)), log)
  end.

(* ------------------------------------------------------------------ *)
(** * Vocabulary of the specification *)
(* ------------------------------------------------------------------ *)

Fixpoint lower_string (s : string) : string :=
  match s with
  | EmptyString => EmptyString
  | String c s' => String (lower c) (lower_string s')
  end.

(** [t] contains [s] as a case-insensitive substring: after case folding,
    [s] occurs somewhere inside [t]. *)
Definition contains_ci (s t : string) : Prop :=
  exists pre post, lower_string t = (pre ++ lower_string s ++ post)%string.

(** The same test on a nullable column: NULL contains nothing. *)
Definition column_contains_ci (s : string) (column : option string) : Prop :=
  match column with
  | Some t => contains_ci s t
  | None => False
  end.

(** Executable forms of the two. *)
Fixpoint prefix_cib (s t : string) : bool :=
  match s with
  | EmptyString => true
  | String c s' =>
      match t with
      | EmptyString => false
      | String x t' => char_ieq c x && prefix_cib s' t'
      end
  end.

Fixpoint any_suffix (f : string -> bool) (u : string) : bool :=
  f u
  || match u with
     | EmptyString => false
     | String _ u' => any_suffix f u'
     end.

Definition contains_cib (s t : string) : bool := any_suffix (prefix_cib s) t.

Definition column_contains_cib (s : string) (column : option string) : bool :=
  match column with
  | Some t => contains_cib s t
  | None => false
  end.

(** The characters with a meaning of their own in a LIKE pattern. *)
Definition metachar (c : ascii) : bool :=
  Ascii.eqb c wild_many || Ascii.eqb c wild_one || Ascii.eqb c escape.

(** A query string without pattern characters. *)
Fixpoint plain (s : string) : bool :=
  match s with
  | EmptyString => true
  | String c s' => negb (metachar c) && plain s'
  end.

(** The row of [airports] that came back as response object [v]. *)
Definition included (a : Airport.t) (out : Outcome (list AirportSchema.t)) : Prop :=
  exists l v, out = Return l /\ In v l /\ AirportSchema.columns v = a.

(** The instance the joined query loads for row [a] when identities are
    unique, and the response object serialization makes of an instance. *)
Definition loaded_of (db : Database) (a : Airport.t) : Airport.loaded :=
  Airport.mk_loaded a (join_airport_type db a) (join_country db a)
    (join_region db a) (filter (navaid_join a) (navaids db)).

Definition schema_of (db : Database) (a : Airport.loaded) : AirportSchema.t :=
  let c := Airport.columns a in
  AirportSchema.mk
    (Airport.id c) (Airport.ident c) (Airport.type c) (Airport.name c)
    (Airport.latitude_deg c) (Airport.longitude_deg c)
    (Airport.elevation_ft c) (Airport.continent c)
    (Airport.iso_country c) (Airport.iso_region c)
    (Airport.municipality c) (Airport.scheduled_service c)
    (Airport.gps_code c) (Airport.iata_code c) (Airport.local_code c)
    (Airport.home_link c) (Airport.wikipedia_link c) (Airport.keywords c)
    (Airport.airport_type a) (Airport.country a) (Airport.region a)
    (filter (fun r => is_true (sql_eq (Runway.airport_ident r)
                                      (Some (Airport.ident c))))
            (runways db))
    (filter (fun f => is_true (sql_eq (Frequency.airport_ident f)
                                      (Some (Airport.ident c))))
            (frequencies db))
    (Airport.navaids a).

(** The rows one airport contributes to the result of the SELECT. *)
Definition rows_of (db : Database) (pattern : string) (a : Airport.t)
  : list JoinedRow :=
  if where_clause pattern a then joined_rows db a else [].

(** The store with one more row in table [navaids]. *)
Definition add_navaid (n : Navaid.t) (db : Database) : Database :=
  mk_database (airport_types db) (api_keys db) (countries db) (navid_types db)
    (regions db) (frequencies db) (n :: navaids db) (runways db) (airports db).

(** The statements serialization sends for one instance. *)
Definition lazy_loads (a : Airport.loaded) : list Statement :=
  [SelectRunways (Airport.ident (Airport.columns a));
   SelectFrequencies (Airport.ident (Airport.columns a))].

(** Statements of the domain: everything but the key lookup. *)
Definition domain_statement (s : Statement) : bool :=
  match s with
  | SelectAPIKey _ => false
  | _ => true
  end.

(** The key is in the store with [is_active] true. *)
Definition active_key (db : Database) (k : string) : Prop :=
  exists r, In r (api_keys db) /\ APIKey.key r = k
            /\ APIKey.is_active r = Some true.

(** The key is in the store and no row of it is active; the key is not
    in the store at all. *)
Definition inactive_key (db : Database) (k : string) : Prop :=
  (exists r, In r (api_keys db) /\ APIKey.key r = k)
  /\ forall r, In r (api_keys db) -> APIKey.key r = k ->
               APIKey.is_active r <> Some true.

Definition unknown_key (db : Database) (k : string) : Prop :=
  forall r, In r (api_keys db) -> APIKey.key r <> k.

Definition missing_key : HTTPException :=
  mk_exception HTTP_401_UNAUTHORIZED "Missing API key".
Definition invalid_or_inactive_key : HTTPException :=
  mk_exception HTTP_401_UNAUTHORIZED "Invalid or inactive API key".
Definition not_found : HTTPException :=
  mk_exception HTTP_404_NOT_FOUND "No airport found with that name or ident".

(* ------------------------------------------------------------------ *)
(** * Example stores *)
(* ------------------------------------------------------------------ *)

(** Rows with the columns the joins and the filter read; the others are
    NULL. *)
Definition airport_row (ident : string) (name type iso_country iso_region : option string)
  : Airport.t :=
  Airport.mk None ident type name None None None None iso_country iso_region
    None None None None None None None None.

Definition navaid_row (id : Integer) (associated_airport : option string)
  : Navaid.t :=
  Navaid.mk id None None None None None None None None None None None None
    None None None None None None associated_airport.

Definition runway_row (id : Integer) (airport_ident : option string) : Runway.t :=
  Runway.mk id None airport_ident None None None None None None None None None
    None None None None None None None None.

Definition frequency_row (id : Integer) (airport_ident : option string)
  : Frequency.t :=
  Frequency.mk id None airport_ident None None None.

Definition kjfk : Airport.t :=
  airport_row "KJFK" (Some "John F Kennedy Intl") (Some "large_airport")
    (Some "US") (Some "US-NY").

Definition klax : Airport.t :=
  airport_row "KLAX" (Some "Los Angeles Intl") (Some "large_airport")
    (Some "US") (Some "US-CA").

Definition us : Country.t :=
  Country.mk (Some 302755%Z) "US" (Some "United States") (Some "NA") None None.

Definition us_ny : Region.t :=
  Region.mk (Some 306109%Z) "US-NY" (Some "NY") (Some "New York") (Some "NA")
    (Some "US") None None.

Definition large_airport : AirportType.t :=
  AirportType.mk "large_airport" (Some "Large airport").

(** The scenario of the specification: KJFK with one runway, one
    frequency and no navaid, its country and region, one active key and
    one deactivated key. *)
Definition db_jfk : Database :=
  mk_database
    [large_airport]
    [APIKey.mk 1%Z "live-key" (Some true); APIKey.mk 2%Z "old-key" (Some false)]
    [us]
    []
    [us_ny]
    [frequency_row 1%Z (Some "KJFK")]
    []
    [runway_row 1%Z (Some "KJFK")]
    [kjfk].

(** Two airports; KLAX has three navaids, two runways and no region row,
    one navaid has no airport and one names an airport that is not in the
    store. *)
Definition db_two : Database :=
  mk_database
    [large_airport]
    [APIKey.mk 1%Z "live-key" (Some true); APIKey.mk 2%Z "old-key" (Some false);
     APIKey.mk 3%Z "null-key" None]
    [us]
    []
    [us_ny]
    [frequency_row 1%Z (Some "KJFK"); frequency_row 2%Z (Some "KLAX")]
    [navaid_row 1%Z (Some "KLAX"); navaid_row 2%Z None;
     navaid_row 3%Z (Some "KLAX"); navaid_row 4%Z (Some "EGLL");
     navaid_row 5%Z (Some "KLAX")]
    [runway_row 1%Z (Some "KJFK"); runway_row 2%Z (Some "KLAX");
     runway_row 3%Z (Some "KLAX")]
    [kjfk; klax].

(** A store whose key column and ident column hold the empty string. *)
Definition blank_field : Airport.t :=
  airport_row "" (Some "Blank Field") None None None.

Definition db_blank (active : bool) : Database :=
  mk_database [] [APIKey.mk 1%Z "" (Some active)] [] [] [] []
    [navaid_row 1%Z (Some "")] [] [blank_field].

(* ------------------------------------------------------------------ *)
(** * app/models.py: both sides of every relationship *)
(* ------------------------------------------------------------------ *)

(** A [relationship] is resolved by its join condition: the foreign
    column of the child equals the key column of the parent.  The
    collection side returns the children of one parent, the scalar side
    the parent of one child. *)
Definition one_to_many {P C : Type} (key : P -> string) (fk : C -> option string)
           (children : list C) (p : P) : list C :=
  filter (fun c => is_true (sql_eq (fk c) (Some (key p)))) children.

Definition many_to_one {P C : Type} (key : P -> string) (fk : C -> option string)
           (parents : list P) (c : C) : option P :=
  find (fun p => is_true (sql_eq (fk c) (Some (key p)))) parents.

(** [AirportType.airports], [Country.airports], [Region.airports]; their
    scalar sides [Airport.airport_type], [Airport.country] and
    [Airport.region] are [join_airport_type], [join_country] and
    [join_region] above. *)
Definition airport_type_airports (db : Database) : AirportType.t -> list Airport.t :=
  one_to_many AirportType.code Airport.type (airports db).

Definition country_airports (db : Database) : Country.t -> list Airport.t :=
  one_to_many Country.code Airport.iso_country (airports db).

Definition region_airports (db : Database) : Region.t -> list Airport.t :=
  one_to_many Region.code Airport.iso_region (airports db).

(** [NavidType.navaid] and [Navaid.navaid_type]. *)
Definition navid_type_navaid (db : Database) : NavidType.t -> list Navaid.t :=
  one_to_many NavidType.code Navaid.type (navaids db).

Definition navaid_navaid_type (db : Database) : Navaid.t -> option NavidType.t :=
  many_to_one NavidType.code Navaid.type (navid_types db).

(** [Airport.frequencies], [Airport.runways] and [Airport.navaids]. *)
Definition airport_frequencies (db : Database) : Airport.t -> list Frequency.t :=
  one_to_many Airport.ident Frequency.airport_ident (frequencies db).

Definition airport_runways (db : Database) : Airport.t -> list Runway.t :=
  one_to_many Airport.ident Runway.airport_ident (runways db).

Definition airport_navaids (db : Database) (a : Airport.t) : list Navaid.t :=
  filter (navaid_join a) (navaids db).

(** [Frequency.airport], [Runway.airport] and [Navaid.airport]. *)
Definition frequency_airport (db : Database) : Frequency.t -> option Airport.t :=
  many_to_one Airport.ident Frequency.airport_ident (airports db).

Definition runway_airport (db : Database) : Runway.t -> option Airport.t :=
  many_to_one Airport.ident Runway.airport_ident (airports db).

Definition navaid_airport (db : Database) : Navaid.t -> option Airport.t :=
  many_to_one Airport.ident Navaid.associated_airport (airports db).

(** [primary_key=True] on [navid_types.code]. *)
Definition navid_types_pk (db : Database) : Prop :=
  NoDup (map NavidType.code (navid_types db)).

(* ------------------------------------------------------------------ *)
(** * Further vocabulary *)
(* ------------------------------------------------------------------ *)

(** The string of [n] copies of one character. *)
Fixpoint repeat_char (c : ascii) (n : nat) : string :=
  match n with
  | O => EmptyString
  | S n' => String c (repeat_char c n')
  end.

(** [t] ends in [s], up to case. *)
Definition ends_with_ci (s t : string) : Prop :=
  exists pre, lower_string t = (pre ++ lower_string s)%string.

Definition column_ends_with_ci (s : string) (column : option string) : Prop :=
  match column with
  | Some t => ends_with_ci s t
  | None => False
  end.

(** A column that holds at least [n] characters. *)
Definition column_at_least (n : nat) (column : option string) : Prop :=
  match column with
  | Some t => n <= String.length t
  | None => False
  end.

(** What is left of [t] after its prefix [s], compared up to case. *)
Fixpoint strip_prefix_ci (s t : string) : option string :=
  match s with
  | EmptyString => Some t
  | String c s' =>
      match t with
      | EmptyString => None
      | String x t' => if char_ieq c x then strip_prefix_ci s' t' else None
      end
  end.

(** Equality of two strings up to case. *)
Fixpoint equal_cib (s t : string) : bool :=
  match s, t with
  | EmptyString, EmptyString => true
  | String c s', String x t' => char_ieq c x && equal_cib s' t'
  | _, _ => false
  end.

(** The two statements serialization sends for one response object. *)
Definition object_loads (v : AirportSchema.t) : list Statement :=
  [SelectRunways (AirportSchema.ident v);
   SelectFrequencies (AirportSchema.ident v)].

(** The idents of a response. *)
Definition response_idents (out : Outcome (list AirportSchema.t)) : list string :=
  match out with
  | Return l => map AirportSchema.ident l
  | Raise _ => []
  end.

(** More example rows: a navaid type with one navaid of KLAX, and an
    airport whose name ends in a percent sign. *)
Definition vor : NavidType.t :=
  NavidType.mk "VOR" (Some "VHF omnidirectional range").

Definition lax_vor : Navaid.t :=
  Navaid.mk 7%Z None (Some "LAX") (Some "Los Angeles") (Some "VOR")
    (Some 113600%Z) None None (Some 182%Z) (Some "US") None None None None
    None None None None None (Some "KLAX").

Definition db_vor : Database :=
  mk_database [large_airport] [APIKey.mk 1%Z "live-key" (Some true)]
    [us] [vor] [us_ny] [frequency_row 2%Z (Some "KLAX")] [lax_vor]
    [runway_row 2%Z (Some "KLAX")] [klax].

(** The store of [db_two] with a second active key. *)
Definition db_two_keys : Database :=
  mk_database (airport_types db_two)
    [APIKey.mk 1%Z "live-key" (Some true); APIKey.mk 2%Z "old-key" (Some false);
     APIKey.mk 4%Z "second-key" (Some true)]
    (countries db_two) (navid_types db_two) (regions db_two)
    (frequencies db_two) (navaids db_two) (runways db_two) (airports db_two).

Definition full_ramp : Airport.t :=
  airport_row "RAMP" (Some "Ramp at 100%") None None None.

Definition db_ramp : Database :=
  mk_database [] [APIKey.mk 1%Z "live-key" (Some true)] [] [] [] [] [] []
    [kjfk; full_ramp].

(* ------------------------------------------------------------------ *)
(** * app/main.py: the session dependency *)
(* ------------------------------------------------------------------ *)

(** [get_db] is a generator: [db = SessionLocal()], then [yield db] inside
    [try], then [db.close()] in [finally].  The framework drives it with
    the operations of a Python generator; the model is the generator as
    a state machine that records when the session is made and closed. *)
Inductive GeneratorState :=
| NotStarted
| Suspended
| Finished.

(** [next(g)], [g.throw(e)] and [g.close()]. *)
Inductive GeneratorOp :=
| Next
| Throw (e : HTTPException)
| Close.

Inductive SessionEvent :=
| SessionLocal
| SessionClose.

(** What the operation gives back: the yielded session, the end of the
    generator, the exception thrown in, or nothing ([close]). *)
Inductive GeneratorResult :=
| Yielded
| StopIteration
| Raised (e : HTTPException)
| Closed.

Definition get_db (st : GeneratorState) (op : GeneratorOp)
  : GeneratorState * list SessionEvent * GeneratorResult :=
  match st, op with
  | NotStarted, Next => (Suspended, [SessionLocal], Yielded)
  | NotStarted, Throw e => (Finished, [], Raised e)
  | NotStarted, Close => (Finished, [], Closed)
  | Suspended, Next => (Finished, [SessionClose], StopIteration)
  | Suspended, Throw e => (Finished, [SessionClose], Raised e)
  | Suspended, Close => (Finished, [SessionClose], Closed)
  | Finished, Next => (Finished, [], StopIteration)
  | Finished, Throw e => (Finished, [], Raised e)
  | Finished, Close => (Finished, [], Closed)
  end.

(** A sequence of operations on one generator, with the session events
    in order. *)
Fixpoint drive (st : GeneratorState) (ops : list GeneratorOp)
  : GeneratorState * list SessionEvent :=
  match ops with
  | [] => (st, [])
  | op :: ops' =>
      match get_db st op with
      | (st', events, _) =>
          match drive st' ops' with
          | (st'', events') => (st'', events ++ events')
          end
      end
  end.

(* ------------------------------------------------------------------ *)
(** * ASCII text *)
(* ------------------------------------------------------------------ *)

Definition is_ascii (c : ascii) : bool := (nat_of_ascii c <? 128)%nat.

Fixpoint ascii_text (s : string) : bool :=
  match s with
  | EmptyString => true
  | String c s' => is_ascii c && ascii_text s'
  end.

Definition column_ascii (column : option string) : bool :=
  match column with
  | Some t => ascii_text t
  | None => true
  end.

(* ------------------------------------------------------------------ *)
(** * The server around the application *)
(* ------------------------------------------------------------------ *)

(** Two failures happen outside the code of [app/main.py] and are not
    caught by it; the server answers them with status 500.

    - The database driver refuses a statement parameter that holds a NUL
      character: [db.execute] of the airport SELECT raises when the
      decoded path parameter holds one, after the key lookup has run.
    - The JSON rendering of the response body refuses NaN and the
      infinities, which a [Float] column can hold. *)
Definition nul : ascii := Ascii.zero.

Fixpoint has_nul (s : string) : bool :=
  match s with
  | EmptyString => false
  | String c s' => Ascii.eqb c nul || has_nul s'
  end.

Definition finite (x : option Float) : bool :=
  match x with
  | Some f => PrimFloat.is_finite f
  | None => true
  end.

Definition runway_renders (r : Runway.t) : bool :=
  finite (Runway.le_latitude_deg r) && finite (Runway.le_longitude_deg r)
  && finite (Runway.he_latitude_deg r) && finite (Runway.he_longitude_deg r).

Definition frequency_renders (f : Frequency.t) : bool :=
  finite (Frequency.frequency_mhz f).

Definition navaid_renders (n : Navaid.t) : bool :=
  finite (Navaid.latitude_deg n) && finite (Navaid.longitude_deg n)
  && finite (Navaid.dme_latitude_deg n) && finite (Navaid.dme_longitude_deg n)
  && finite (Navaid.magnetic_variation_deg n).

(** Every [float] field of one response object is finite. *)
Definition renders (v : AirportSchema.t) : bool :=
  finite (AirportSchema.latitude_deg v) && finite (AirportSchema.longitude_deg v)
  && forallb runway_renders (AirportSchema.runways v)
  && forallb frequency_renders (AirportSchema.frequencies v)
  && forallb navaid_renders (AirportSchema.navaids v).

(** What the client receives: a rendered response of the application, or
    the server's own 500 "Internal Server Error". *)
Inductive ServerResponse :=
| Rendered (r : Response)
| InternalServerError.

Definition HTTP_500_INTERNAL_SERVER_ERROR : Z := 500.

Definition server_status (r : ServerResponse) : Z :=
  match r with
  | Rendered r' => status r'
  | InternalServerError => HTTP_500_INTERNAL_SERVER_ERROR
  end.

Definition serve (req : Request) (db : Database) : ServerResponse * list Statement :=
  match verify_api_key (x_api_key req) db [] with
  | (Raise _, _) =>
      match app req db with
      | (r, log) => (Rendered r, log)
      end
  | (Return _, log) =>
      if has_nul (name req) then (InternalServerError, log)
      else
        match app req db with
        | (r, log') =>
            match content r with
            | Airports l =>
                if forallb renders l then (Rendered r, log')
                else (InternalServerError, log')
            | Detail _ => (Rendered r, log')
            end
        end
  end.

(** An airport whose latitude is not a number of JSON, beside KJFK. *)
Definition xinf : Airport.t :=
  Airport.mk None "XINF" None (Some "Unsurveyed Field")
    (Some PrimFloat.infinity) None None None None None None None None None
    None None None None.

Definition db_inf : Database :=
  mk_database [large_airport] [APIKey.mk 1%Z "live-key" (Some true)] [us] []
    [us_ny] [] [] [] [kjfk; xinf].

(* ------------------------------------------------------------------ *)
(** * The LIKE operator *)
(* ------------------------------------------------------------------ *)

Lemma ilike_match_wild_many (p t : string) :
  ilike_match (String wild_many p) t = any_suffix (ilike_match p) t.
Proof.
  induction t as [|x t IH].
  - reflexivity.
  - change (ilike_match (String wild_many p) (String x t))
      with (ilike_match p (String x t) || ilike_match (String wild_many p) t).
    rewrite IH. reflexivity.
Qed.

Lemma any_suffix_ext (f g : string -> bool) (t : string) :
  (forall u, f u = g u) -> any_suffix f t = any_suffix g t.
Proof.
  intros E. induction t as [|x t IH]; simpl.
  - now rewrite E.
  - now rewrite E, IH.
Qed.

Lemma any_suffix_true (f : string -> bool) (t : string) :
  any_suffix f t = true <->
  exists pre u, t = (pre ++ u)%string /\ f u = true.
Proof.
  induction t as [|x t IH]; simpl.
  - rewrite orb_false_r. split.
    + intros H. exists EmptyString, EmptyString. auto.
    + intros (pre & u & E & H).
      destruct pre; [|discriminate]. simpl in E. now subst u.
  - rewrite orb_true_iff, IH. split.
    + intros [H | (pre & u & E & H)].
      * exists EmptyString, (String x t). auto.
      * exists (String x pre), u. simpl. now rewrite E.
    + intros (pre & u & E & H). destruct pre as [|y pre]; simpl in E.
      * left. now subst u.
      * right. injection E as _ E. eauto.
Qed.

Lemma ilike_match_only_wild_many (t : string) :
  ilike_match (String wild_many EmptyString) t = true.
Proof.
  rewrite ilike_match_wild_many.
  apply any_suffix_true. exists t, EmptyString. split.
  - clear. induction t; simpl; congruence.
  - reflexivity.
Qed.

Lemma ilike_match_plain_cons (c : ascii) (p t : string) :
  metachar c = false ->
  ilike_match (String c p) t =
  match t with
  | EmptyString => false
  | String x t' => char_ieq c x && ilike_match p t'
  end.
Proof.
  unfold metachar. intros H.
  apply orb_false_iff in H as [H He].
  apply orb_false_iff in H as [Hm Ho].
  simpl. now rewrite Hm, Ho, He.
Qed.

(** A plain string followed by [%] is a prefix test. *)
Lemma ilike_match_plain_prefix (s t : string) :
  plain s = true ->
  ilike_match (s ++ String wild_many EmptyString) t = prefix_cib s t.
Proof.
  revert t. induction s as [|c s IH]; intros t H.
  - apply ilike_match_only_wild_many.
  - simpl in H. apply andb_true_iff in H as [Hc Hs].
    apply negb_true_iff in Hc.
    change ((String c s ++ String wild_many EmptyString)%string)
      with (String c (s ++ String wild_many EmptyString)).
    rewrite ilike_match_plain_cons by exact Hc.
    destruct t as [|x t]; simpl; [reflexivity|].
    now rewrite IH.
Qed.

(** A plain string between two [%] is a substring test. *)
Lemma ilike_match_like_pattern_plain (s t : string) :
  plain s = true ->
  ilike_match (like_pattern s) t = contains_cib s t.
Proof.
  intros H. unfold like_pattern, contains_cib.
  rewrite ilike_match_wild_many.
  apply any_suffix_ext. intros u. now apply ilike_match_plain_prefix.
Qed.

Lemma lower_string_app (s t : string) :
  lower_string (s ++ t) = (lower_string s ++ lower_string t)%string.
Proof.
  induction s as [|c s IH]; simpl; [reflexivity | now rewrite IH].
Qed.

Lemma lower_string_split (t pre post : string) :
  lower_string t = (pre ++ post)%string ->
  exists t1 t2, t = (t1 ++ t2)%string /\ lower_string t1 = pre
                /\ lower_string t2 = post.
Proof.
  revert t. induction pre as [|c pre IH]; intros t E; simpl in E.
  - exists EmptyString, t. auto.
  - destruct t as [|x t]; [discriminate|]. simpl in E. injection E as Ec E.
    destruct (IH _ E) as (t1 & t2 & -> & E1 & E2).
    exists (String x t1), t2. simpl. now rewrite Ec, E1.
Qed.

Lemma prefix_cib_true (s t : string) :
  prefix_cib s t = true <->
  exists post, lower_string t = (lower_string s ++ post)%string.
Proof.
  revert t. induction s as [|c s IH]; intros t; simpl.
  - split; eauto.
  - destruct t as [|x t]; simpl.
    + split; [discriminate | intros (post & E); discriminate].
    + unfold char_ieq. rewrite andb_true_iff, Ascii.eqb_eq, IH. split.
      * intros (Ec & post & E). exists post. now rewrite Ec, E.
      * intros (post & E). injection E as Ec E. eauto.
Qed.

(** The executable substring test decides [contains_ci]. *)
Lemma contains_cib_true (s t : string) :
  contains_cib s t = true <-> contains_ci s t.
Proof.
  unfold contains_cib, contains_ci. rewrite any_suffix_true. split.
  - intros (pre & u & -> & H). apply prefix_cib_true in H as (post & E).
    exists (lower_string pre), post. now rewrite lower_string_app, E.
  - intros (pre & post & E).
    apply lower_string_split in E as (t1 & t2 & -> & E1 & E2).
    exists t1, t2. split; [reflexivity|].
    apply prefix_cib_true. eauto.
Qed.

Lemma column_contains_cib_true (s : string) (column : option string) :
  column_contains_cib s column = true <-> column_contains_ci s column.
Proof.
  destruct column; simpl.
  - apply contains_cib_true.
  - split; [discriminate | contradiction].
Qed.

(** The pattern of the handler never ends in a lone escape character. *)
Lemma escape_closed_wild_many_end (n : nat) (s : string) :
  String.length s <= n ->
  escape_closed (s ++ String wild_many EmptyString) = true.
Proof.
  revert s. induction n as [|n IH]; intros s Hn.
  - destruct s; [reflexivity | simpl in Hn; lia].
  - destruct s as [|c s]; [reflexivity|]. simpl in Hn. simpl.
    destruct (Ascii.eqb c escape).
    + destruct s as [|d s]; [reflexivity|]. simpl in Hn. simpl.
      apply IH. lia.
    + apply IH. lia.
Qed.

(** X5: whatever the query string, the pattern the handler builds never
    ends in a lone escape character (a pattern the store would refuse):
    the closing percent sign is either a wildcard or the character the
    last backslash of the query escapes. *)
Lemma like_pattern_escape_closed (name : string) :
  escape_closed (like_pattern name) = true.
Proof.
  unfold like_pattern. simpl.
  apply (escape_closed_wild_many_end (String.length name)). lia.
Qed.

Lemma where_clause_plain (s : string) (a : Airport.t) :
  plain s = true ->
  where_clause (like_pattern s) a =
  column_contains_cib s (Airport.name a) || contains_cib s (Airport.ident a).
Proof.
  intros H. unfold where_clause, ilike.
  rewrite (ilike_match_like_pattern_plain s (Airport.ident a) H).
  destruct (Airport.name a) as [n|].
  - rewrite (ilike_match_like_pattern_plain s n H). simpl.
    destruct (contains_cib s n), (contains_cib s (Airport.ident a)); reflexivity.
  - simpl. destruct (contains_cib s (Airport.ident a)); reflexivity.
Qed.

(** A query of the single character [%] keeps every row: the ident column
    is never NULL and [%%%] matches every string. *)
Lemma where_clause_percent (a : Airport.t) :
  where_clause (like_pattern (String wild_many EmptyString)) a = true.
Proof.
  assert (M : forall t, ilike_match (like_pattern (String wild_many EmptyString)) t = true).
  { intros t. unfold like_pattern. simpl append.
    rewrite ilike_match_wild_many. apply any_suffix_true.
    exists EmptyString, t. split; [reflexivity|].
    rewrite ilike_match_wild_many. apply any_suffix_true.
    exists EmptyString, t. split; [reflexivity|].
    apply ilike_match_only_wild_many. }
  unfold where_clause, ilike. rewrite M.
  destruct (Airport.name a); [rewrite M|]; reflexivity.
Qed.

(* ------------------------------------------------------------------ *)
(** * The joined SELECT and the loader *)
(* ------------------------------------------------------------------ *)

Section Query.

Variable db : Database.
Variable pattern : string.

Lemma filter_rows_same_airport (a : Airport.t) x y z (l : list (option Navaid.t)) :
  filter (fun r => where_clause pattern (row_airport r)) (map (mk_row a x y z) l) =
  if where_clause pattern a then map (mk_row a x y z) l else [].
Proof.
  induction l as [|o l IH]; simpl.
  - now destruct (where_clause pattern a).
  - rewrite IH. now destruct (where_clause pattern a).
Qed.

Lemma select_airports_rows_of :
  select_airports pattern db = flat_map (rows_of db pattern) (airports db).
Proof.
  unfold select_airports.
  induction (airports db) as [|a l IH]; simpl; [reflexivity|].
  rewrite filter_app, IH. f_equal.
  apply filter_rows_same_airport.
Qed.

Lemma outer_join_navaids_cons (a : Airport.t) :
  exists o l, outer_join_navaids db a = o :: l.
Proof.
  unfold outer_join_navaids.
  destruct (filter (navaid_join a) (navaids db)); simpl; eauto.
Qed.

Lemma in_outer_join_navaids (a : Airport.t) (n : Navaid.t) :
  In (Some n) (outer_join_navaids db a) <->
  In n (navaids db) /\ navaid_join a n = true.
Proof.
  unfold outer_join_navaids. rewrite <- filter_In.
  destruct (filter (navaid_join a) (navaids db)) as [|m l].
  - simpl. split; [intros [H|[]]; discriminate | contradiction].
  - rewrite in_map_iff. split.
    + intros (x & E & H). now injection E as ->.
    + intros H. eauto.
Qed.

Lemma in_select_airports (r : JoinedRow) :
  In r (select_airports pattern db) <->
  exists a o,
    In a (airports db) /\ where_clause pattern a = true
    /\ In o (outer_join_navaids db a)
    /\ r = mk_row a (join_airport_type db a) (join_country db a)
                  (join_region db a) o.
Proof.
  unfold select_airports. rewrite filter_In, in_flat_map. split.
  - intros ((a & Ha & Hr) & Hw). unfold joined_rows in Hr.
    apply in_map_iff in Hr as (o & <- & Ho). simpl in Hw. eauto 8.
  - intros (a & o & Ha & Hw & Ho & ->). simpl. split; [|exact Hw].
    exists a. split; [exact Ha|]. unfold joined_rows. now apply in_map.
Qed.

Lemma select_airports_nil :
  select_airports pattern db = [] <->
  forall a, In a (airports db) -> where_clause pattern a = false.
Proof.
  split.
  - intros E a Ha. destruct (where_clause pattern a) eqn:Hw; [|reflexivity].
    destruct (outer_join_navaids_cons a) as (o & l & Eo).
    assert (H : In (mk_row a (join_airport_type db a) (join_country db a)
                           (join_region db a) o) (select_airports pattern db)).
    { apply in_select_airports. exists a, o. rewrite Eo. simpl. auto. }
    rewrite E in H. destruct H.
  - intros H. destruct (select_airports pattern db) as [|r l] eqn:E; [reflexivity|].
    assert (Hr : In r (select_airports pattern db)) by (rewrite E; now left).
    apply in_select_airports in Hr as (a & o & Ha & Hw & _).
    rewrite (H a Ha) in Hw. discriminate.
Qed.

(** ** [unique] *)

Lemma in_unique (seen : list string) (rows : list JoinedRow) (r : JoinedRow) :
  In r (unique seen rows) -> In r rows.
Proof.
  revert seen. induction rows as [|x rows IH]; intros seen; simpl; [auto|].
  destruct (existsb _ seen).
  - intros H. right. eauto.
  - intros [H|H]; [now left | right; eauto].
Qed.

Lemma unique_nil (rows : list JoinedRow) :
  unique [] rows = [] <-> rows = [].
Proof.
  destruct rows; simpl; split; congruence.
Qed.

Lemma unique_same_airport (seen : list string) (a : Airport.t) x y z
      (l : list (option Navaid.t)) (rest : list JoinedRow) :
  existsb (String.eqb (Airport.ident a)) seen = true ->
  unique seen (map (mk_row a x y z) l ++ rest) = unique seen rest.
Proof.
  intros H. induction l as [|o l IH]; simpl; [reflexivity|].
  now rewrite H.
Qed.

Lemma existsb_eqb_false (i : string) (seen : list string) :
  existsb (String.eqb i) seen = false <-> ~ In i seen.
Proof.
  rewrite <- not_true_iff_false, existsb_exists. split.
  - intros H Hi. apply H. exists i. split; [exact Hi | apply String.eqb_refl].
  - intros H (x & Hx & E). apply String.eqb_eq in E. now subst x.
Qed.

(** With unique idents, [unique] keeps the first row of every airport
    that passes the filter, in table order. *)
Lemma unique_rows_of (rows : list JoinedRow) (l : list Airport.t) (seen : list string) :
  NoDup (map Airport.ident l) ->
  (forall a, In a l -> ~ In (Airport.ident a) seen) ->
  map (load rows) (unique seen (flat_map (rows_of db pattern) l)) =
  map (fun a => Airport.mk_loaded a (join_airport_type db a) (join_country db a)
                  (join_region db a) (collect_navaids (Airport.ident a) rows))
      (filter (where_clause pattern) l).
Proof.
  revert seen. induction l as [|a l IH]; intros seen ND Hseen; simpl; [reflexivity|].
  inversion ND as [|? ? Hnot ND']; subst.
  unfold rows_of at 1. destruct (where_clause pattern a) eqn:Hw.
  - unfold joined_rows.
    destruct (outer_join_navaids_cons a) as (o & os & ->). simpl.
    assert (Hs : existsb (String.eqb (Airport.ident a)) seen = false).
    { apply existsb_eqb_false. apply Hseen. now left. }
    rewrite Hs. simpl. f_equal.
    rewrite unique_same_airport by (simpl; now rewrite String.eqb_refl).
    apply IH; [exact ND'|].
    intros a' Ha' [E|Hin].
    + apply Hnot. rewrite E. now apply in_map.
    + revert Hin. apply Hseen. now right.
  - simpl. apply IH; [exact ND'|]. intros a' Ha'. apply Hseen. now right.
Qed.

(** ** The navaid collection *)

Lemma in_collect_navaids (i : string) (rows : list JoinedRow) (n : Navaid.t) :
  In n (collect_navaids i rows) <->
  exists r, In r rows /\ Airport.ident (row_airport r) = i
            /\ row_navaid r = Some n.
Proof.
  unfold collect_navaids. rewrite in_flat_map. split.
  - intros (r & Hr & Hn). exists r. split; [exact Hr|].
    destruct (String.eqb_spec (Airport.ident (row_airport r)) i) as [E|E];
      [|destruct Hn].
    destruct (row_navaid r) as [m|]; [|destruct Hn].
    destruct Hn as [->|[]]. auto.
  - intros (r & Hr & E & Hn). exists r. split; [exact Hr|].
    rewrite E, String.eqb_refl, Hn. now left.
Qed.

Lemma collect_navaids_app (i : string) (r1 r2 : list JoinedRow) :
  collect_navaids i (r1 ++ r2) = collect_navaids i r1 ++ collect_navaids i r2.
Proof. apply flat_map_app. Qed.

Lemma collect_navaids_joined_rows (i : string) (a : Airport.t) :
  collect_navaids i (joined_rows db a) =
  if String.eqb (Airport.ident a) i
  then filter (navaid_join a) (navaids db) else [].
Proof.
  assert (G : forall ns x y z,
             collect_navaids i (map (mk_row a x y z) (map Some ns)) =
             if String.eqb (Airport.ident a) i then ns else []).
  { intros ns x y z. unfold collect_navaids.
    induction ns as [|m ns IH]; simpl.
    - now destruct (String.eqb (Airport.ident a) i).
    - rewrite IH. now destruct (String.eqb (Airport.ident a) i). }
  unfold joined_rows, outer_join_navaids.
  destruct (filter (navaid_join a) (navaids db)) as [|n ns].
  - unfold collect_navaids. simpl.
    now destruct (String.eqb (Airport.ident a) i).
  - apply G.
Qed.

Lemma collect_navaids_other (i : string) (l : list Airport.t) :
  ~ In i (map Airport.ident l) ->
  collect_navaids i (flat_map (rows_of db pattern) l) = [].
Proof.
  induction l as [|a l IH]; simpl; intros H; [reflexivity|].
  rewrite collect_navaids_app, IH by tauto.
  unfold rows_of. destruct (where_clause pattern a); [|reflexivity].
  rewrite collect_navaids_joined_rows.
  destruct (String.eqb_spec (Airport.ident a) i); [tauto | reflexivity].
Qed.

Lemma collect_navaids_rows_of (l : list Airport.t) (a : Airport.t) :
  NoDup (map Airport.ident l) ->
  In a l ->
  where_clause pattern a = true ->
  collect_navaids (Airport.ident a) (flat_map (rows_of db pattern) l) =
  filter (navaid_join a) (navaids db).
Proof.
  intros ND Ha Hw. induction l as [|b l IH]; [destruct Ha|].
  simpl in *. inversion ND as [|? ? Hnot ND']; subst.
  rewrite collect_navaids_app. destruct Ha as [->|Ha].
  - rewrite collect_navaids_other by exact Hnot.
    unfold rows_of. rewrite Hw, collect_navaids_joined_rows, String.eqb_refl.
    apply app_nil_r.
  - rewrite IH by assumption.
    unfold rows_of. destruct (where_clause pattern b); [|reflexivity].
    rewrite collect_navaids_joined_rows.
    destruct (String.eqb_spec (Airport.ident b) (Airport.ident a)) as [E|E];
      [|reflexivity].
    exfalso. apply Hnot. rewrite E. now apply in_map.
Qed.

(** With unique idents the loader returns the matching airports of the
    table, once each and in table order, each with its own navaids. *)
Lemma unique_scalars_all_pk :
  airports_pk db ->
  unique_scalars_all (select_airports pattern db) =
  map (loaded_of db) (filter (where_clause pattern) (airports db)).
Proof.
  intros PK. unfold unique_scalars_all.
  rewrite select_airports_rows_of.
  rewrite unique_rows_of by (auto; exact PK).
  apply map_ext_in. intros a Ha. apply filter_In in Ha as [Ha Hw].
  unfold loaded_of. f_equal. now apply collect_navaids_rows_of.
Qed.

(** Without that assumption: every loaded instance comes from a row of
    the result. *)
Lemma in_unique_scalars_all (x : Airport.loaded) :
  In x (unique_scalars_all (select_airports pattern db)) ->
  exists a,
    In a (airports db) /\ where_clause pattern a = true
    /\ x = Airport.mk_loaded a (join_airport_type db a) (join_country db a)
             (join_region db a)
             (collect_navaids (Airport.ident a) (select_airports pattern db)).
Proof.
  unfold unique_scalars_all. rewrite in_map_iff.
  intros (r & <- & Hr). apply in_unique in Hr.
  apply in_select_airports in Hr as (a & o & Ha & Hw & _ & ->).
  exists a. auto.
Qed.

Lemma in_collect_navaids_select (a : Airport.t) (n : Navaid.t) :
  In a (airports db) ->
  where_clause pattern a = true ->
  In n (collect_navaids (Airport.ident a) (select_airports pattern db)) <->
  In n (navaids db) /\ Navaid.associated_airport n = Some (Airport.ident a).
Proof.
  intros Ha Hw. rewrite in_collect_navaids. split.
  - intros (r & Hr & Ei & Hn).
    apply in_select_airports in Hr as (b & o & Hb & _ & Ho & ->).
    simpl in Ei, Hn. subst o.
    apply in_outer_join_navaids in Ho as [Hin Hj]. split; [exact Hin|].
    unfold navaid_join in Hj.
    destruct (Navaid.associated_airport n) as [s|]; simpl in Hj; [|discriminate].
    destruct (String.eqb_spec (Airport.ident b) s); [congruence | discriminate].
  - intros [Hin E].
    exists (mk_row a (join_airport_type db a) (join_country db a)
                   (join_region db a) (Some n)).
    split; [|auto]. apply in_select_airports. exists a, (Some n).
    repeat split; try assumption.
    apply in_outer_join_navaids. split; [exact Hin|].
    unfold navaid_join. rewrite E. simpl. now rewrite String.eqb_refl.
Qed.

End Query.

(* ------------------------------------------------------------------ *)
(** * Running a request *)
(* ------------------------------------------------------------------ *)

Lemma verify_api_key_run (api_key : option string) (db : Database)
      (log : list Statement) :
  verify_api_key api_key db log =
  if truthy api_key then
    match find (api_key_filter (header_value api_key)) (api_keys db) with
    | Some _ => (Return tt, log ++ [SelectAPIKey (header_value api_key)])
    | None => (Raise invalid_or_inactive_key,
               log ++ [SelectAPIKey (header_value api_key)])
    end
  else (Raise missing_key, log).
Proof.
  unfold verify_api_key. destruct (truthy api_key); simpl; [|reflexivity].
  unfold bind, query_api_key, execute.
  now destruct (find _ (api_keys db)).
Qed.

Lemma find_api_key_some (db : Database) (k : string) :
  (exists r, find (api_key_filter k) (api_keys db) = Some r) <-> active_key db k.
Proof.
  unfold active_key, api_key_filter. split.
  - intros (r & H). apply find_some in H as [Hin H].
    apply andb_true_iff in H as [Hk Ha]. apply String.eqb_eq in Hk.
    exists r. repeat split; auto.
    destruct (APIKey.is_active r) as [[|]|]; simpl in Ha; congruence.
  - intros (r & Hin & Hk & Ha).
    destruct (find _ (api_keys db)) as [x|] eqn:E; [eauto|].
    apply (find_none _ _ E) in Hin. simpl in Hin.
    rewrite Hk, String.eqb_refl, Ha in Hin. discriminate.
Qed.

Lemma find_api_key_none (db : Database) (k : string) :
  find (api_key_filter k) (api_keys db) = None <-> ~ active_key db k.
Proof.
  rewrite <- find_api_key_some. split.
  - intros E (r & H). congruence.
  - intros H. destruct (find _ (api_keys db)) as [r|]; [|reflexivity].
    exfalso. eauto.
Qed.

Lemma truthy_some (k : string) : truthy (Some k) = true <-> k <> EmptyString.
Proof. destruct k; simpl; split; congruence. Qed.

Lemma from_orm_run (a : Airport.loaded) (db : Database) (log : list Statement) :
  from_orm a db log = (Return (schema_of db a), log ++ lazy_loads a).
Proof.
  unfold from_orm, bind, load_runways, load_frequencies, execute, ret, lazy_loads.
  now rewrite <- app_assoc.
Qed.

Lemma serialize_response_run (l : list Airport.loaded) (db : Database)
      (log : list Statement) :
  serialize_response l db log =
  (Return (map (schema_of db) l), log ++ flat_map lazy_loads l).
Proof.
  unfold serialize_response. revert log.
  induction l as [|a l IH]; intros log; simpl.
  - unfold ret. now rewrite app_nil_r.
  - unfold bind at 1. rewrite from_orm_run.
    unfold bind at 1. rewrite IH. unfold ret.
    now rewrite <- app_assoc.
Qed.

Lemma get_airports_by_name_run (name : string) (db : Database)
      (log : list Statement) :
  get_airports_by_name name db log =
  (match unique_scalars_all (select_airports (like_pattern name) db) with
   | [] => Raise not_found
   | x :: l => Return (x :: l)
   end,
   log ++ [SelectAirports (like_pattern name)]).
Proof.
  unfold get_airports_by_name, bind, execute.
  now destruct (unique_scalars_all _).
Qed.

Lemma endpoint_run (name : string) (db : Database) (log : list Statement) :
  endpoint name db log =
  match unique_scalars_all (select_airports (like_pattern name) db) with
  | [] => (Raise not_found, log ++ [SelectAirports (like_pattern name)])
  | x :: l =>
      (Return (map (schema_of db) (x :: l)),
       (log ++ [SelectAirports (like_pattern name)]) ++ flat_map lazy_loads (x :: l))
  end.
Proof.
  unfold endpoint, bind. rewrite get_airports_by_name_run.
  destruct (unique_scalars_all _); [reflexivity|].
  apply serialize_response_run.
Qed.

Lemma handle_run (req : Request) (db : Database) (log : list Statement) :
  handle req db log =
  match verify_api_key (x_api_key req) db log with
  | (Return _, log') => endpoint (name req) db log'
  | (Raise e, log') => (Raise e, log')
  end.
Proof.
  unfold handle, dependencies, bind. simpl. unfold bind, ret.
  destruct (verify_api_key (x_api_key req) db log) as [[u|e] log']; reflexivity.
Qed.

Lemma columns_schema_of (db : Database) (x : Airport.loaded) :
  AirportSchema.columns (schema_of db x) = Airport.columns x.
Proof.
  unfold AirportSchema.columns, schema_of. simpl.
  now destruct (Airport.columns x).
Qed.

(** What the route returns, in terms of the loaded instances. *)
Lemma endpoint_return (name : string) (db : Database) (log : list Statement)
      (l : list AirportSchema.t) :
  fst (endpoint name db log) = Return l <->
  l <> [] /\
  l = map (schema_of db)
          (unique_scalars_all (select_airports (like_pattern name) db)).
Proof.
  rewrite endpoint_run.
  destruct (unique_scalars_all _) as [|x xs]; simpl.
  - split; [discriminate | intros [H E]; congruence].
  - split.
    + intros E. injection E as <-. split; [discriminate | reflexivity].
    + intros [_ ->]. reflexivity.
Qed.

Lemma endpoint_not_found (name : string) (db : Database) (log : list Statement) :
  fst (endpoint name db log) = Raise not_found <->
  forall a, In a (airports db) -> where_clause (like_pattern name) a = false.
Proof.
  rewrite endpoint_run, <- select_airports_nil.
  unfold unique_scalars_all.
  destruct (select_airports (like_pattern name) db) as [|r rows]; simpl.
  - split; auto.
  - split; discriminate.
Qed.

(** Every response object is the serialization of a matching row of
    [airports], with the relationships the joined query resolved. *)
Lemma endpoint_object (name : string) (db : Database) (log : list Statement)
      (l : list AirportSchema.t) (v : AirportSchema.t) :
  fst (endpoint name db log) = Return l ->
  In v l ->
  exists a,
    In a (airports db) /\ where_clause (like_pattern name) a = true
    /\ v = schema_of db
             (Airport.mk_loaded a (join_airport_type db a) (join_country db a)
                (join_region db a)
                (collect_navaids (Airport.ident a)
                   (select_airports (like_pattern name) db))).
Proof.
  intros E Hv. apply endpoint_return in E as [_ ->].
  apply in_map_iff in Hv as (x & <- & Hx).
  apply in_unique_scalars_all in Hx as (a & Ha & Hw & ->). eauto.
Qed.

(** With unique idents the response lists the matching rows of the
    table, in table order. *)
Lemma endpoint_return_pk (name : string) (db : Database) (log : list Statement)
      (l : list AirportSchema.t) :
  airports_pk db ->
  fst (endpoint name db log) = Return l <->
  l <> [] /\
  l = map (fun a => schema_of db (loaded_of db a))
          (filter (where_clause (like_pattern name)) (airports db)).
Proof.
  intros PK. rewrite endpoint_return, unique_scalars_all_pk by exact PK.
  now rewrite map_map.
Qed.

Lemma app_run (req : Request) (db : Database) :
  app req db =
  match verify_api_key (x_api_key req) db [] with
  | (Raise e, log) => (mk_response (status_code e) (Detail (detail e)), log)
  | (Return _, log) =>
      match endpoint (name req) db log with
      | (Return l, log') => (mk_response HTTP_200_OK (Airports l), log')
      | (Raise e, log') => (mk_response (status_code e) (Detail (detail e)), log')
      end
  end.
Proof.
  unfold app. rewrite handle_run.
  destruct (verify_api_key (x_api_key req) db []) as [[u|e] log]; reflexivity.
Qed.

Lemma inactive_key_not_active (db : Database) (k : string) :
  inactive_key db k -> ~ active_key db k.
Proof.
  intros [_ H] (r & Hin & Hk & Ha). exact (H r Hin Hk Ha).
Qed.

Lemma unknown_key_not_active (db : Database) (k : string) :
  unknown_key db k -> ~ active_key db k.
Proof.
  intros H (r & Hin & Hk & _). exact (H r Hin Hk).
Qed.

(** A presented, non-empty key with no active row is rejected with the
    same exception whatever the reason it has no active row. *)
Lemma verify_api_key_not_active (db : Database) (k : string) (log : list Statement) :
  k <> EmptyString ->
  ~ active_key db k ->
  verify_api_key (Some k) db log =
  (Raise invalid_or_inactive_key, log ++ [SelectAPIKey k]).
Proof.
  intros Hk Hn. rewrite verify_api_key_run.
  apply truthy_some in Hk. rewrite Hk. simpl.
  apply find_api_key_none in Hn. now rewrite Hn.
Qed.

Lemma lazy_loads_domain (l : list Airport.loaded) :
  forallb domain_statement (flat_map lazy_loads l) = true.
Proof.
  induction l as [|a l IH]; simpl; [reflexivity | exact IH].
Qed.

(* ------------------------------------------------------------------ *)
(** * API key verification on every request *)
(* ------------------------------------------------------------------ *)

(** C2, as stated, fails on the empty key: a store may hold an active row
    whose key is the empty string, and a request that presents the empty
    string is still rejected as missing. *)
Lemma empty_key_rejected_although_active :
  ~ (fst (verify_api_key (Some "") (db_blank true) []) = Return tt
     <-> active_key (db_blank true) "").
Proof.
  intros [_ H].
  assert (A : active_key (db_blank true) "").
  { exists (APIKey.mk 1%Z "" (Some true)). simpl. auto. }
  specialize (H A). vm_compute in H. discriminate.
Qed.

(** C2 (amended): a header that is absent or empty is rejected with the
    "missing" reason whatever the store holds; for every presented
    non-empty key, [verify_api_key] succeeds exactly when the store has a
    row with that key and [is_active] true, and is rejected with the
    "invalid or inactive" reason when it has none; both rejections carry
    status 401. *)
Theorem verify_api_key_decision (db : Database) (api_key : option string)
        (log : list Statement) :
  (truthy api_key = false ->
   fst (verify_api_key api_key db log) = Raise missing_key)
  /\ (forall k, api_key = Some k -> k <> EmptyString ->
        (fst (verify_api_key api_key db log) = Return tt <-> active_key db k)
        /\ (~ active_key db k ->
            fst (verify_api_key api_key db log) = Raise invalid_or_inactive_key))
  /\ status_code missing_key = 401%Z
  /\ detail missing_key = "Missing API key"
  /\ status_code invalid_or_inactive_key = 401%Z
  /\ detail invalid_or_inactive_key = "Invalid or inactive API key".
Proof.
  split; [|split; [|repeat split]].
  - intros H. rewrite verify_api_key_run, H. reflexivity.
  - intros k -> Hk. split.
    + rewrite verify_api_key_run.
      apply truthy_some in Hk. rewrite Hk. simpl.
      rewrite <- find_api_key_some.
      destruct (find _ (api_keys db)) as [r|]; simpl; split.
      * eauto.
      * reflexivity.
      * discriminate.
      * intros (r & E). discriminate.
    + intros Hn. now rewrite verify_api_key_not_active.
Qed.

Lemma verify_api_key_decision_witness :
  ("live-key" <> EmptyString
   /\ (fst (verify_api_key (Some "live-key") db_jfk []) = Return tt
       <-> active_key db_jfk "live-key"))
  /\ (truthy (Some "") = false
      /\ fst (verify_api_key (Some "") db_jfk []) = Raise missing_key).
Proof.
  split; split.
  - discriminate.
  - apply (proj1 (proj2 (verify_api_key_decision db_jfk (Some "live-key") []))
                 "live-key" eq_refl).
    discriminate.
  - reflexivity.
  - apply (proj1 (verify_api_key_decision db_jfk (Some "") [])). reflexivity.
Defined.

(** X3: the response to a request does not depend on which store answers it,
    as long as the presented key has no active row in either: whether the
    key is known to a store cannot be read off the response. *)
Lemma rejection_independent_of_store (req : Request) (db1 db2 : Database) :
  (forall k, x_api_key req = Some k -> ~ active_key db1 k /\ ~ active_key db2 k) ->
  fst (app req db1) = fst (app req db2).
Proof.
  intros H. rewrite !app_run.
  destruct (x_api_key req) as [k|] eqn:K; [|reflexivity].
  destruct (H k eq_refl) as [H1 H2].
  destruct k as [|c k]; [reflexivity|].
  rewrite !verify_api_key_not_active by (assumption || discriminate).
  reflexivity.
Qed.

(** C8, as stated, fails when one of the two keys is the empty string:
    the empty key is answered "missing" whether or not the store knows
    it, a non-empty key without an active row is answered "invalid or
    inactive". *)
Lemma empty_key_rejection_differs :
  (inactive_key (db_blank false) ""
   /\ unknown_key (db_blank false) "abc"
   /\ fst (app (mk_request (Some "") "JFK") (db_blank false))
      <> fst (app (mk_request (Some "abc") "JFK") (db_blank false)))
  /\ (inactive_key db_jfk "old-key"
      /\ unknown_key db_jfk ""
      /\ fst (app (mk_request (Some "old-key") "JFK") db_jfk)
         <> fst (app (mk_request (Some "") "JFK") db_jfk)).
Proof.
  split; repeat split.
  - exists (APIKey.mk 1%Z "" (Some false)). simpl. auto.
  - intros r [<-|[]] _. simpl. discriminate.
  - intros r [<-|[]]. simpl. discriminate.
  - vm_compute. discriminate.
  - exists (APIKey.mk 2%Z "old-key" (Some false)). simpl. auto.
  - intros r [<-|[<-|[]]] E; simpl in *; discriminate.
  - intros r [<-|[<-|[]]]; simpl; discriminate.
  - vm_compute. discriminate.
Qed.

(** C8 (amended): of two requests that present non-empty keys, one a key
    the store holds only with [is_active] not true, the other a key the
    store does not hold, both get the same response: status 401 with the
    detail "Invalid or inactive API key". *)
Theorem inactive_and_unknown_key_same_rejection
        (db1 db2 : Database) (k1 k2 n1 n2 : string) :
  k1 <> EmptyString ->
  k2 <> EmptyString ->
  inactive_key db1 k1 ->
  unknown_key db2 k2 ->
  fst (app (mk_request (Some k1) n1) db1)
  = mk_response 401 (Detail "Invalid or inactive API key")
  /\ fst (app (mk_request (Some k2) n2) db2)
     = mk_response 401 (Detail "Invalid or inactive API key").
Proof.
  intros H1 H2 Hi Hu. split; rewrite app_run; simpl x_api_key.
  - rewrite verify_api_key_not_active; [reflexivity | exact H1 |].
    now apply inactive_key_not_active.
  - rewrite verify_api_key_not_active; [reflexivity | exact H2 |].
    now apply unknown_key_not_active.
Qed.

Lemma inactive_and_unknown_key_same_rejection_witness :
  fst (app (mk_request (Some "old-key") "JFK") db_jfk)
  = mk_response 401 (Detail "Invalid or inactive API key")
  /\ fst (app (mk_request (Some "never-issued") "JFK") db_jfk)
     = mk_response 401 (Detail "Invalid or inactive API key").
Proof.
  apply (inactive_and_unknown_key_same_rejection db_jfk db_jfk
           "old-key" "never-issued" "JFK" "JFK").
  - discriminate.
  - discriminate.
  - split.
    + exists (APIKey.mk 2%Z "old-key" (Some false)). simpl. auto.
    + intros r [<-|[<-|[]]] E; simpl in *; discriminate.
  - intros r [<-|[<-|[]]]; simpl; discriminate.
Defined.

(** C9: on every request to the route the API key check runs first: the
    statements of the request are those of [verify_api_key] followed by
    those of the route, and when [verify_api_key] raises, the response is
    its 401 exception and the request has sent no statement of the
    domain, in particular no airport query. *)
Theorem api_key_check_runs_first (req : Request) (db : Database) :
  (exists rest,
      snd (app req db) = snd (verify_api_key (x_api_key req) db []) ++ rest
      /\ forallb (fun s => negb (domain_statement s))
                 (snd (verify_api_key (x_api_key req) db [])) = true
      /\ forallb domain_statement rest = true)
  /\ (forall e,
         fst (verify_api_key (x_api_key req) db []) = Raise e ->
         status_code e = HTTP_401_UNAUTHORIZED
         /\ app req db =
            (mk_response HTTP_401_UNAUTHORIZED (Detail (detail e)),
             snd (verify_api_key (x_api_key req) db []))
         /\ forall s, In s (snd (app req db)) -> domain_statement s = false).
Proof.
  assert (G : forallb (fun s => negb (domain_statement s))
                      (snd (verify_api_key (x_api_key req) db [])) = true).
  { rewrite verify_api_key_run. destruct (truthy (x_api_key req)); [|reflexivity].
    now destruct (find _ (api_keys db)). }
  split.
  - rewrite app_run.
    destruct (verify_api_key (x_api_key req) db []) as [[u|e] log] eqn:V.
    + rewrite endpoint_run.
      destruct (unique_scalars_all _) as [|x xs]; simpl snd.
      * exists [SelectAirports (like_pattern (name req))]. auto.
      * exists ([SelectAirports (like_pattern (name req))]
                  ++ flat_map lazy_loads (x :: xs)).
        rewrite <- app_assoc. split; [reflexivity|]. split; [exact G|].
        rewrite forallb_app. simpl forallb at 1.
        apply lazy_loads_domain.
    + exists []. simpl. rewrite app_nil_r. auto.
  - intros e He.
    assert (S : status_code e = HTTP_401_UNAUTHORIZED).
    { rewrite verify_api_key_run in He.
      destruct (truthy (x_api_key req)); [|simpl in He; now injection He as <-].
      destruct (find _ (api_keys db)); simpl in He; [discriminate|].
      now injection He as <-. }
    assert (A : app req db =
                (mk_response HTTP_401_UNAUTHORIZED (Detail (detail e)),
                 snd (verify_api_key (x_api_key req) db []))).
    { rewrite app_run.
      destruct (verify_api_key (x_api_key req) db []) as [[u|e'] log];
        simpl in He; [discriminate|].
      injection He as ->. simpl. now rewrite S. }
    split; [exact S|]. split; [exact A|].
    intros s Hs. rewrite A in Hs. simpl in Hs.
    rewrite forallb_forall in G. apply G in Hs.
    now apply negb_true_iff in Hs.
Qed.

Lemma api_key_check_runs_first_witness :
  fst (verify_api_key (x_api_key (mk_request (Some "old-key") "JFK")) db_jfk [])
  = Raise invalid_or_inactive_key
  /\ app (mk_request (Some "old-key") "JFK") db_jfk
     = (mk_response HTTP_401_UNAUTHORIZED
                    (Detail "Invalid or inactive API key"),
        [SelectAPIKey "old-key"]).
Proof.
  split; [reflexivity|].
  apply (proj2 (api_key_check_runs_first (mk_request (Some "old-key") "JFK") db_jfk)
               invalid_or_inactive_key).
  reflexivity.
Defined.

(* ------------------------------------------------------------------ *)
(** * The airport query *)
(* ------------------------------------------------------------------ *)

Lemma app_authorized (req : Request) (db : Database) :
  fst (verify_api_key (x_api_key req) db []) = Return tt ->
  fst (app req db) =
  match fst (endpoint (name req) db (snd (verify_api_key (x_api_key req) db []))) with
  | Return l => mk_response HTTP_200_OK (Airports l)
  | Raise e => mk_response (status_code e) (Detail (detail e))
  end.
Proof.
  intros H. rewrite app_run.
  destruct (verify_api_key (x_api_key req) db []) as [[u|e] log];
    simpl in *; [|discriminate].
  now destruct (endpoint (name req) db log) as [[l|e] log'].
Qed.

Lemma where_clause_dec (db : Database) (pattern : string) :
  (forall a, In a (airports db) -> where_clause pattern a = false)
  \/ (exists a, In a (airports db) /\ where_clause pattern a = true).
Proof.
  induction (airports db) as [|a l [IH|(b & Hb & Hw)]].
  - left. intros a [].
  - destruct (where_clause pattern a) eqn:Hw.
    + right. exists a. split; [now left | exact Hw].
    + left. intros b [<-|Hb]; auto.
  - right. exists b. split; [now right | exact Hw].
Qed.

Lemma endpoint_outcomes (name : string) (db : Database) (log : list Statement) :
  fst (endpoint name db log) = Raise not_found
  \/ exists l, fst (endpoint name db log) = Return l /\ l <> [].
Proof.
  rewrite endpoint_run. destruct (unique_scalars_all _) as [|x xs]; simpl.
  - now left.
  - right. eexists. split; [reflexivity | discriminate].
Qed.

Lemma endpoint_found (name : string) (db : Database) (log : list Statement) :
  (exists a, In a (airports db) /\ where_clause (like_pattern name) a = true) ->
  exists l, fst (endpoint name db log) = Return l /\ l <> [].
Proof.
  intros (a & Ha & Hw).
  destruct (endpoint_outcomes name db log) as [N|D]; [|exact D].
  rewrite endpoint_not_found in N. rewrite (N a Ha) in Hw. discriminate.
Qed.

Lemma NoDup_map_filter {A B : Type} (f : A -> B) (g : A -> bool) (l : list A) :
  NoDup (map f l) -> NoDup (map f (filter g l)).
Proof.
  induction l as [|x l IH]; simpl; intros ND; [constructor|].
  inversion ND as [|? ? Hnot ND']; subst.
  destruct (g x); simpl; [|auto].
  constructor; [|auto].
  intros H. apply Hnot. apply in_map_iff in H as (y & E & Hy).
  apply filter_In in Hy as [Hy _]. rewrite <- E. now apply in_map.
Qed.

(** With unique idents, the rows of [airports] that come back are the
    rows that pass the WHERE clause. *)
Lemma included_pk (name : string) (db : Database) (log : list Statement)
      (a : Airport.t) :
  airports_pk db ->
  included a (fst (endpoint name db log)) <->
  In a (airports db) /\ where_clause (like_pattern name) a = true.
Proof.
  intros PK. unfold included. split.
  - intros (l & v & E & Hv & <-).
    apply (endpoint_return_pk name db log l PK) in E as [_ ->].
    apply in_map_iff in Hv as (b & <- & Hb).
    rewrite columns_schema_of. simpl. now apply filter_In in Hb.
  - intros [Ha Hw].
    destruct (endpoint_found name db log) as (l & E & _); [eauto|].
    exists l, (schema_of db (loaded_of db a)). split; [exact E|].
    apply (endpoint_return_pk name db log l PK) in E as [_ ->].
    split; [|now rewrite columns_schema_of].
    apply in_map_iff. exists a. split; [reflexivity|].
    apply filter_In. auto.
Qed.

(** The query [%] returns every airport of the store. *)
Lemma percent_query_includes_every_airport
      (db : Database) (log : list Statement) (a : Airport.t) :
  airports_pk db ->
  In a (airports db) ->
  included a (fst (endpoint "%" db log)).
Proof.
  intros PK Ha. apply (included_pk "%" db log a PK).
  split; [exact Ha | apply where_clause_percent].
Qed.

Lemma kjfk_included_percent :
  included kjfk (fst (endpoint "%" db_jfk [])).
Proof.
  eexists. eexists. split; [vm_compute; reflexivity|].
  split; [now left | reflexivity].
Qed.

Lemma kjfk_has_no_percent :
  ~ (column_contains_ci "%" (Airport.name kjfk)
     \/ contains_ci "%" (Airport.ident kjfk)).
Proof.
  intros [H|H].
  - apply column_contains_cib_true in H. vm_compute in H. discriminate.
  - apply contains_cib_true in H. vm_compute in H. discriminate.
Qed.

(** C1, as stated, fails on a query with a pattern character: the query
    [%] returns KJFK, whose name and ident do not contain [%]. *)
Lemma percent_query_is_not_a_substring_test :
  ~ (included kjfk (fst (endpoint "%" db_jfk []))
     <-> (column_contains_ci "%" (Airport.name kjfk)
          \/ contains_ci "%" (Airport.ident kjfk))).
Proof.
  intros [H _]. apply kjfk_has_no_percent. apply H. exact kjfk_included_percent.
Qed.

(** C1 (amended): on ASCII text, for every query string without the
    pattern characters [%], [_] and backslash, and every airport of the
    store, the result of the route includes the airport if and only if
    its name or its ident contains the query as a case-insensitive
    substring (anywhere in the string: no anchoring to its start or
    end).  The query, the name and the ident are ASCII: there the letters
    A-Z and a-z are folded together, as the store folds them. *)
Theorem plain_query_is_substring_test
        (db : Database) (name : string) (log : list Statement) (a : Airport.t) :
  airports_pk db ->
  plain name = true ->
  ascii_text name = true ->
  In a (airports db) ->
  column_ascii (Airport.name a) = true ->
  ascii_text (Airport.ident a) = true ->
  included a (fst (endpoint name db log))
  <-> (column_contains_ci name (Airport.name a)
       \/ contains_ci name (Airport.ident a)).
Proof.
  intros PK Hp _ Ha _ _.
  rewrite (included_pk name db log a PK), (where_clause_plain name a Hp).
  rewrite orb_true_iff, column_contains_cib_true, contains_cib_true.
  tauto.
Qed.

Lemma plain_query_is_substring_test_witness :
  included klax (fst (endpoint "ANGELES" db_two []))
  <-> (column_contains_ci "ANGELES" (Airport.name klax)
       \/ contains_ci "ANGELES" (Airport.ident klax)).
Proof.
  apply (plain_query_is_substring_test db_two "ANGELES" [] klax).
  - repeat constructor; simpl; intuition discriminate.
  - reflexivity.
  - reflexivity.
  - simpl. auto.
  - reflexivity.
  - reflexivity.
Defined.

(** C10: a query with a pattern character is not a literal substring
    test.  The query [%] is interpolated as it is, giving the pattern
    [%%%], and returns KJFK although neither its name nor its ident
    contains [%]; the query [K_A] returns KLAX although neither its name
    nor its ident contains [K_A]. *)
Theorem wildcard_query_returns_airports_without_it :
  like_pattern "%" = "%%%"
  /\ included kjfk (fst (endpoint "%" db_jfk []))
  /\ ~ column_contains_ci "%" (Airport.name kjfk)
  /\ ~ contains_ci "%" (Airport.ident kjfk)
  /\ included klax (fst (endpoint "K_A" db_two []))
  /\ ~ column_contains_ci "K_A" (Airport.name klax)
  /\ ~ contains_ci "K_A" (Airport.ident klax).
Proof.
  split; [reflexivity|].
  split; [exact kjfk_included_percent|].
  split; [intros H; apply kjfk_has_no_percent; now left|].
  split; [intros H; apply kjfk_has_no_percent; now right|].
  split.
  - eexists. eexists. split; [vm_compute; reflexivity|].
    split; [now left | reflexivity].
  - split; intros H.
    + apply column_contains_cib_true in H. vm_compute in H. discriminate.
    + apply contains_cib_true in H. vm_compute in H. discriminate.
Qed.

(** C4: with [ident] the primary key of [airports], every airport that
    passes the filter is in the result exactly once, however many rows of
    the joined SELECT it has (one per navaid, at least one). *)
Theorem matching_airport_listed_once
        (db : Database) (name : string) (log : list Statement) (a : Airport.t) :
  airports_pk db ->
  In a (airports db) ->
  where_clause (like_pattern name) a = true ->
  exists l,
    fst (endpoint name db log) = Return l
    /\ count_occ string_dec (map AirportSchema.ident l) (Airport.ident a) = 1
    /\ (exists v, In v l /\ AirportSchema.columns v = a)
    /\ incl (joined_rows db a) (select_airports (like_pattern name) db)
    /\ List.length (joined_rows db a)
       = Nat.max 1 (List.length (filter (navaid_join a) (navaids db))).
Proof.
  intros PK Ha Hw.
  destruct (endpoint_found name db log) as (l & E & _); [eauto|].
  exists l. split; [exact E|].
  apply (endpoint_return_pk name db log l PK) in E as [_ ->].
  split; [|split; [|split]].
  - rewrite map_map.
    assert (ND : NoDup (map Airport.ident
                            (filter (where_clause (like_pattern name)) (airports db))))
      by (apply NoDup_map_filter; exact PK).
    rewrite (map_ext _ Airport.ident) by reflexivity.
    apply (proj1 (NoDup_count_occ' string_dec _) ND).
    apply in_map. apply filter_In. auto.
  - exists (schema_of db (loaded_of db a)).
    split; [|now rewrite columns_schema_of].
    apply in_map_iff. exists a. split; [reflexivity|]. apply filter_In. auto.
  - intros r Hr. unfold select_airports. apply filter_In. split.
    + apply in_flat_map. eauto.
    + unfold joined_rows in Hr. apply in_map_iff in Hr as (o & <- & _).
      exact Hw.
  - unfold joined_rows, outer_join_navaids. rewrite List.length_map.
    destruct (filter (navaid_join a) (navaids db)) as [|n ns]; simpl.
    + reflexivity.
    + now rewrite List.length_map.
Qed.

Lemma matching_airport_listed_once_witness :
  exists l,
    fst (endpoint "intl" db_two []) = Return l
    /\ count_occ string_dec (map AirportSchema.ident l) (Airport.ident klax) = 1
    /\ (exists v, In v l /\ AirportSchema.columns v = klax)
    /\ incl (joined_rows db_two klax) (select_airports (like_pattern "intl") db_two)
    /\ List.length (joined_rows db_two klax) = 3.
Proof.
  apply (matching_airport_listed_once db_two "intl" [] klax).
  - repeat constructor; simpl; intuition discriminate.
  - simpl. auto.
  - reflexivity.
Defined.

(* ------------------------------------------------------------------ *)
(** * Relationships of a response object *)
(* ------------------------------------------------------------------ *)

Lemma flat_map_ext_in {A B : Type} (f g : A -> list B) (l : list A) :
  (forall a, In a l -> f a = g a) -> flat_map f l = flat_map g l.
Proof.
  induction l as [|x l IH]; simpl; intros H; [reflexivity|].
  rewrite (H x) by now left. rewrite IH; [reflexivity|].
  intros a Ha. apply H. now right.
Qed.

(** A navaid that joins no airport of the store changes no response. *)
Lemma endpoint_add_navaid (name : string) (db : Database) (log : list Statement)
      (n : Navaid.t) :
  (forall a, In a (airports db) -> navaid_join a n = false) ->
  endpoint name (add_navaid n db) log = endpoint name db log.
Proof.
  intros H. rewrite !endpoint_run.
  assert (S : select_airports (like_pattern name) (add_navaid n db)
              = select_airports (like_pattern name) db).
  { unfold select_airports. f_equal. simpl airports.
    apply flat_map_ext_in. intros a Ha.
    unfold joined_rows, outer_join_navaids. simpl navaids. simpl filter.
    rewrite (H a Ha). reflexivity. }
  rewrite S. reflexivity.
Qed.

Lemma navaid_join_false (a : Airport.t) (n : Navaid.t) :
  Navaid.associated_airport n <> Some (Airport.ident a) ->
  navaid_join a n = false.
Proof.
  unfold navaid_join. intros H.
  destruct (Navaid.associated_airport n) as [s|]; simpl; [|reflexivity].
  destruct (String.eqb_spec (Airport.ident a) s); [congruence | reflexivity].
Qed.

(** C5, as stated, fails on a blank [associated_airport]: the join is an
    equality of strings, so a navaid whose [associated_airport] is the
    empty string is listed under an airport whose ident is the empty
    string. *)
Lemma blank_navaid_listed_under_blank_ident :
  Navaid.associated_airport (navaid_row 1%Z (Some "")) = Some ""
  /\ ~ (forall l v,
           fst (endpoint "blank" (db_blank true) []) = Return l ->
           In v l ->
           ~ In (navaid_row 1%Z (Some "")) (AirportSchema.navaids v)).
Proof.
  split; [reflexivity|]. intros H.
  refine (H _ _ eq_refl (or_introl eq_refl) _).
  now left.
Qed.

(** C5 (amended): a navaid is in the navaids list of a returned airport
    if and only if it is a row of [navaids] whose [associated_airport]
    equals the ident of that airport; a navaid whose [associated_airport]
    is NULL or equals the ident of no airport of the store is listed
    under no airport, and a store with one more such navaid answers every
    query as before.  (An empty [associated_airport] is compared like any
    other string.) *)
Theorem navaids_follow_associated_airport
        (db : Database) (name : string) (log : list Statement)
        (l : list AirportSchema.t) (v : AirportSchema.t) (n : Navaid.t) :
  fst (endpoint name db log) = Return l ->
  In v l ->
  (In n (AirportSchema.navaids v)
   <-> In n (navaids db)
       /\ Navaid.associated_airport n = Some (AirportSchema.ident v))
  /\ ((Navaid.associated_airport n = None
       \/ forall a, In a (airports db) ->
                    Navaid.associated_airport n <> Some (Airport.ident a)) ->
      ~ In n (AirportSchema.navaids v)
      /\ endpoint name (add_navaid n db) log = endpoint name db log).
Proof.
  intros E Hv.
  destruct (endpoint_object name db log l v E Hv) as (a & Ha & Hw & ->).
  simpl AirportSchema.navaids. simpl AirportSchema.ident.
  pose proof (in_collect_navaids_select db (like_pattern name) a n Ha Hw) as C.
  split; [exact C|].
  intros Hn.
  assert (N : forall b, In b (airports db) ->
                        Navaid.associated_airport n <> Some (Airport.ident b)).
  { destruct Hn as [Hn|Hn]; [|exact Hn]. intros b _. rewrite Hn. discriminate. }
  split.
  - intros Hin. apply C in Hin as [_ Hin]. exact (N a Ha Hin).
  - apply endpoint_add_navaid. intros b Hb. apply navaid_join_false. auto.
Qed.

Lemma navaids_follow_associated_airport_witness :
  exists v,
    fst (endpoint "intl" db_two []) = Return [schema_of db_two (loaded_of db_two kjfk); v]
    /\ AirportSchema.ident v = "KLAX"
    /\ (In (navaid_row 3%Z (Some "KLAX")) (AirportSchema.navaids v)
        <-> In (navaid_row 3%Z (Some "KLAX")) (navaids db_two)
            /\ Navaid.associated_airport (navaid_row 3%Z (Some "KLAX"))
               = Some (AirportSchema.ident v))
    /\ ~ In (navaid_row 4%Z (Some "EGLL")) (AirportSchema.navaids v).
Proof.
  exists (schema_of db_two (loaded_of db_two klax)).
  split; [reflexivity|]. split; [reflexivity|]. split.
  - apply (proj1 (navaids_follow_associated_airport db_two "intl" []
                    [schema_of db_two (loaded_of db_two kjfk);
                     schema_of db_two (loaded_of db_two klax)]
                    (schema_of db_two (loaded_of db_two klax))
                    (navaid_row 3%Z (Some "KLAX")) eq_refl
                    (or_intror (or_introl eq_refl)))).
  - apply (proj2 (navaids_follow_associated_airport db_two "intl" []
                    [schema_of db_two (loaded_of db_two kjfk);
                     schema_of db_two (loaded_of db_two klax)]
                    (schema_of db_two (loaded_of db_two klax))
                    (navaid_row 4%Z (Some "EGLL")) eq_refl
                    (or_intror (or_introl eq_refl)))).
    right. intros a [<-|[<-|[]]]; discriminate.
Defined.

(** C6: every object of the response carries all the runways and all the
    frequencies of its airport: the rows of the two tables whose
    [airport_ident] equals its ident, fetched by statements of the same
    request, although the SELECT of the handler joins only the airport
    type, the country, the region and the navaids.  In the scenario of the
    specification, the request for [JFK] with a valid key returns 200 with
    one object: ident KJFK, one runway, one frequency, no navaid, country
    US. *)
Theorem runways_and_frequencies_in_response :
  (forall (db : Database) (name : string) (log : list Statement)
          (l : list AirportSchema.t) (v : AirportSchema.t),
      fst (endpoint name db log) = Return l ->
      In v l ->
      AirportSchema.runways v
      = filter (fun r => is_true (sql_eq (Runway.airport_ident r)
                                         (Some (AirportSchema.ident v))))
               (runways db)
      /\ AirportSchema.frequencies v
         = filter (fun f => is_true (sql_eq (Frequency.airport_ident f)
                                            (Some (AirportSchema.ident v))))
                  (frequencies db)
      /\ In (SelectRunways (AirportSchema.ident v)) (snd (endpoint name db log))
      /\ In (SelectFrequencies (AirportSchema.ident v))
            (snd (endpoint name db log)))
  /\ (exists v,
         app (mk_request (Some "live-key") "JFK") db_jfk
         = (mk_response 200 (Airports [v]),
            [SelectAPIKey "live-key"; SelectAirports "%JFK%";
             SelectRunways "KJFK"; SelectFrequencies "KJFK"])
         /\ AirportSchema.ident v = "KJFK"
         /\ List.length (AirportSchema.runways v) = 1
         /\ List.length (AirportSchema.frequencies v) = 1
         /\ List.length (AirportSchema.navaids v) = 0
         /\ option_map Country.code (AirportSchema.country v) = Some "US").
Proof.
  split.
  - intros db name log l v E Hv.
    pose proof E as E'. apply endpoint_return in E' as [_ ->].
    apply in_map_iff in Hv as (x & <- & Hx).
    split; [reflexivity|]. split; [reflexivity|].
    rewrite endpoint_run.
    destruct (unique_scalars_all _) as [|y ys]; [destruct Hx|].
    simpl snd. simpl AirportSchema.ident.
    assert (I : incl (lazy_loads x) (flat_map lazy_loads (y :: ys))).
    { intros s Hs. apply in_flat_map. eauto. }
    split; apply in_or_app; right; apply I; simpl; auto.
  - eexists. split; [vm_compute; reflexivity|].
    repeat split; reflexivity.
Qed.

Lemma runways_and_frequencies_in_response_witness :
  AirportSchema.runways (schema_of db_two (loaded_of db_two klax))
  = [runway_row 2%Z (Some "KLAX"); runway_row 3%Z (Some "KLAX")].
Proof.
  apply (proj1 (proj1 runways_and_frequencies_in_response db_two "intl" []
                  [schema_of db_two (loaded_of db_two kjfk);
                   schema_of db_two (loaded_of db_two klax)]
                  (schema_of db_two (loaded_of db_two klax)) eq_refl
                  (or_intror (or_introl eq_refl)))).
Defined.

Lemma find_by_code {A : Type} (code : A -> string) (k : option string)
      (l : list A) (x : A) :
  NoDup (map code l) ->
  In x l ->
  k = Some (code x) ->
  find (fun y => is_true (sql_eq k (Some (code y)))) l = Some x.
Proof.
  intros ND Hx ->. induction l as [|y l IH]; [destruct Hx|].
  simpl in *. inversion ND as [|? ? Hnot ND']; subst.
  destruct (String.eqb_spec (code x) (code y)) as [E|E].
  - destruct Hx as [->|Hx]; [reflexivity|].
    exfalso. apply Hnot. rewrite <- E. now apply in_map.
  - destruct Hx as [->|Hx]; [congruence | auto].
Qed.

Lemma find_by_code_none {A : Type} (code : A -> string) (k : option string)
      (l : list A) :
  (forall x, In x l -> k <> Some (code x)) ->
  find (fun y => is_true (sql_eq k (Some (code y)))) l = None.
Proof.
  intros H. induction l as [|y l IH]; [reflexivity|]. simpl.
  destruct k as [s|]; simpl.
  - destruct (String.eqb_spec s (code y)) as [E|E].
    + exfalso. apply (H y); [now left | congruence].
    + apply IH. intros x Hx. apply H. now right.
  - apply IH. intros x Hx. apply H. now right.
Qed.

Lemma filter_nil {A : Type} (f : A -> bool) (l : list A) :
  (forall x, In x l -> f x = false) -> filter f l = [].
Proof.
  induction l as [|x l IH]; simpl; intros H; [reflexivity|].
  rewrite (H x) by now left. apply IH. intros y Hy. apply H. now right.
Qed.

Lemma sql_eq_column_false (column : option string) (i : string) :
  column <> Some i -> is_true (sql_eq column (Some i)) = false.
Proof.
  intros H. destruct column as [s|]; simpl; [|reflexivity].
  destruct (String.eqb_spec s i); [congruence | reflexivity].
Qed.

(** C7: with [code] the primary key of the three reference tables, the
    country, region and airport type of a returned airport are the rows
    whose code equals its [iso_country], [iso_region] and [type], and are
    absent when no row has that code; the runways, frequencies and
    navaids are lists, empty when no row of the child table names the
    airport. *)
Theorem reference_rows_and_collections
        (db : Database) (name : string) (log : list Statement)
        (l : list AirportSchema.t) (v : AirportSchema.t) :
  airport_types_pk db ->
  countries_pk db ->
  regions_pk db ->
  fst (endpoint name db log) = Return l ->
  In v l ->
  ((forall c, In c (countries db) ->
              AirportSchema.iso_country v = Some (Country.code c) ->
              AirportSchema.country v = Some c)
   /\ ((forall c, In c (countries db) ->
                  AirportSchema.iso_country v <> Some (Country.code c)) ->
       AirportSchema.country v = None))
  /\ ((forall r, In r (regions db) ->
                 AirportSchema.iso_region v = Some (Region.code r) ->
                 AirportSchema.region v = Some r)
      /\ ((forall r, In r (regions db) ->
                     AirportSchema.iso_region v <> Some (Region.code r)) ->
          AirportSchema.region v = None))
  /\ ((forall t, In t (airport_types db) ->
                 AirportSchema.type v = Some (AirportType.code t) ->
                 AirportSchema.airport_type v = Some t)
      /\ ((forall t, In t (airport_types db) ->
                     AirportSchema.type v <> Some (AirportType.code t)) ->
          AirportSchema.airport_type v = None))
  /\ ((forall r, In r (runways db) ->
                 Runway.airport_ident r <> Some (AirportSchema.ident v)) ->
      AirportSchema.runways v = [])
  /\ ((forall f, In f (frequencies db) ->
                 Frequency.airport_ident f <> Some (AirportSchema.ident v)) ->
      AirportSchema.frequencies v = [])
  /\ ((forall n, In n (navaids db) ->
                 Navaid.associated_airport n <> Some (AirportSchema.ident v)) ->
      AirportSchema.navaids v = []).
Proof.
  intros PT PC PR E Hv.
  destruct (endpoint_object name db log l v E Hv) as (a & Ha & Hw & ->).
  simpl.
  repeat split.
  - intros c Hc Ec. now apply find_by_code.
  - intros H. now apply find_by_code_none.
  - intros r Hr Er. now apply find_by_code.
  - intros H. now apply find_by_code_none.
  - intros t Ht Et. now apply find_by_code.
  - intros H. now apply find_by_code_none.
  - intros H. apply filter_nil. intros r Hr. apply sql_eq_column_false. auto.
  - intros H. apply filter_nil. intros f Hf. apply sql_eq_column_false. auto.
  - intros H.
    destruct (collect_navaids _ _) as [|n ns] eqn:C; [reflexivity|].
    assert (Hn : In n (collect_navaids (Airport.ident a)
                         (select_airports (like_pattern name) db)))
      by (rewrite C; now left).
    apply (in_collect_navaids_select db (like_pattern name) a n Ha Hw) in Hn
      as [Hin Hn].
    exfalso. exact (H n Hin Hn).
Qed.

Lemma reference_rows_and_collections_witness :
  AirportSchema.country (schema_of db_two (loaded_of db_two klax)) = Some us
  /\ AirportSchema.region (schema_of db_two (loaded_of db_two klax)) = None
  /\ AirportSchema.navaids (schema_of db_two (loaded_of db_two kjfk)) = [].
Proof.
  assert (PT : airport_types_pk db_two)
    by (repeat constructor; simpl; intuition discriminate).
  assert (PC : countries_pk db_two)
    by (repeat constructor; simpl; intuition discriminate).
  assert (PR : regions_pk db_two)
    by (repeat constructor; simpl; intuition discriminate).
  pose proof (reference_rows_and_collections db_two "intl" []
                [schema_of db_two (loaded_of db_two kjfk);
                 schema_of db_two (loaded_of db_two klax)]
                (schema_of db_two (loaded_of db_two klax))
                PT PC PR eq_refl (or_intror (or_introl eq_refl)))
    as (Hc & Hr & _).
  pose proof (reference_rows_and_collections db_two "intl" []
                [schema_of db_two (loaded_of db_two kjfk);
                 schema_of db_two (loaded_of db_two klax)]
                (schema_of db_two (loaded_of db_two kjfk))
                PT PC PR eq_refl (or_introl eq_refl))
    as (_ & _ & _ & _ & _ & Hn).
  split; [|split].
  - apply (proj1 Hc us); [now left | reflexivity].
  - apply (proj2 Hr). intros r [<-|[]]. discriminate.
  - apply Hn. intros n [<-|[<-|[<-|[<-|[<-|[]]]]]]; discriminate.
Defined.

(* ------------------------------------------------------------------ *)
(** * More on the pattern of the query *)
(* ------------------------------------------------------------------ *)

Lemma lower_idem (c : ascii) : lower (lower c) = lower c.
Proof. destruct c as [[] [] [] [] [] [] [] []]; reflexivity. Qed.

Lemma lower_wild_many (c : ascii) :
  Ascii.eqb (lower c) wild_many = Ascii.eqb c wild_many.
Proof. destruct c as [[] [] [] [] [] [] [] []]; reflexivity. Qed.

Lemma lower_wild_one (c : ascii) :
  Ascii.eqb (lower c) wild_one = Ascii.eqb c wild_one.
Proof. destruct c as [[] [] [] [] [] [] [] []]; reflexivity. Qed.

Lemma lower_escape (c : ascii) :
  Ascii.eqb (lower c) escape = Ascii.eqb c escape.
Proof. destruct c as [[] [] [] [] [] [] [] []]; reflexivity. Qed.

Lemma char_ieq_lower (c x : ascii) : char_ieq (lower c) x = char_ieq c x.
Proof. unfold char_ieq. now rewrite lower_idem. Qed.

Lemma ilike_match_wild_one (p t : string) :
  ilike_match (String wild_one p) t =
  match t with
  | EmptyString => false
  | String _ t' => ilike_match p t'
  end.
Proof. reflexivity. Qed.

Lemma ilike_match_escape (e : ascii) (p t : string) :
  ilike_match (String escape (String e p)) t =
  match t with
  | EmptyString => false
  | String x t' => char_ieq e x && ilike_match p t'
  end.
Proof. reflexivity. Qed.

Lemma ilike_match_cons_lower (c : ascii) (p q t : string) :
  Ascii.eqb c wild_many = false ->
  Ascii.eqb c wild_one = false ->
  Ascii.eqb c escape = false ->
  (forall u, ilike_match q u = ilike_match p u) ->
  ilike_match (String (lower c) q) t = ilike_match (String c p) t.
Proof.
  intros Hm Ho He H.
  rewrite !ilike_match_plain_cons.
  - destruct t as [|x t]; [reflexivity|]. now rewrite char_ieq_lower, H.
  - unfold metachar. now rewrite Hm, Ho, He.
  - unfold metachar. now rewrite lower_wild_many, lower_wild_one, lower_escape, Hm, Ho, He.
Qed.

(** The case of the letters of a pattern does not matter. *)
Lemma ilike_match_lower_pattern_le (n : nat) (p t : string) :
  String.length p <= n ->
  ilike_match (lower_string p) t = ilike_match p t.
Proof.
  revert p t. induction n as [|n IH]; intros p t Hn.
  - destruct p; [reflexivity | simpl in Hn; lia].
  - destruct p as [|c p]; [reflexivity|]. simpl in Hn.
    change (lower_string (String c p)) with (String (lower c) (lower_string p)).
    destruct (Ascii.eqb c wild_many) eqn:Em.
    { apply Ascii.eqb_eq in Em. subst c.
      change (lower wild_many) with wild_many.
      rewrite !ilike_match_wild_many. apply any_suffix_ext.
      intros u. apply IH. lia. }
    destruct (Ascii.eqb c wild_one) eqn:Eo.
    { apply Ascii.eqb_eq in Eo. subst c.
      change (lower wild_one) with wild_one.
      rewrite !ilike_match_wild_one.
      destruct t as [|x t]; [reflexivity|]. apply IH. lia. }
    destruct (Ascii.eqb c escape) eqn:Ee.
    { apply Ascii.eqb_eq in Ee. subst c.
      change (lower escape) with escape.
      destruct p as [|e p]; [reflexivity|]. simpl in Hn.
      change (lower_string (String e p)) with (String (lower e) (lower_string p)).
      rewrite !ilike_match_escape.
      destruct t as [|x t]; [reflexivity|].
      rewrite char_ieq_lower. f_equal. apply IH. lia. }
    apply ilike_match_cons_lower; try assumption.
    intros u. apply IH. lia.
Qed.

Lemma ilike_match_lower_pattern (p t : string) :
  ilike_match (lower_string p) t = ilike_match p t.
Proof. now apply (ilike_match_lower_pattern_le (String.length p)). Qed.

Lemma lower_string_like_pattern (name : string) :
  lower_string (like_pattern name) = like_pattern (lower_string name).
Proof.
  unfold like_pattern. simpl. f_equal. now rewrite lower_string_app.
Qed.

Lemma where_clause_ext (p q : string) (a : Airport.t) :
  (forall t, ilike_match p t = ilike_match q t) ->
  where_clause p a = where_clause q a.
Proof.
  intros H. unfold where_clause, ilike. rewrite (H (Airport.ident a)).
  destruct (Airport.name a) as [n|]; [now rewrite (H n) | reflexivity].
Qed.

Lemma where_clause_true (p : string) (a : Airport.t) :
  where_clause p a = true <->
  (exists t, Airport.name a = Some t /\ ilike_match p t = true)
  \/ ilike_match p (Airport.ident a) = true.
Proof.
  unfold where_clause, ilike.
  destruct (Airport.name a) as [n|]; split.
  - intros H. destruct (ilike_match p n) eqn:En; [left; eauto|].
    destruct (ilike_match p (Airport.ident a)); [now right | discriminate].
  - intros [(t & E & H)|H].
    + injection E as <-. now rewrite H.
    + rewrite H. now destruct (ilike_match p n).
  - intros H. destruct (ilike_match p (Airport.ident a)); [now right | discriminate].
  - intros [(t & E & _)|H]; [discriminate | now rewrite H].
Qed.

(** The response of the route depends on the pattern only through the
    rows the pattern keeps. *)
Lemma endpoint_ext (n1 n2 : string) (db : Database) (log : list Statement) :
  (forall a, In a (airports db) ->
             where_clause (like_pattern n1) a = where_clause (like_pattern n2) a) ->
  fst (endpoint n1 db log) = fst (endpoint n2 db log).
Proof.
  intros H.
  assert (S : select_airports (like_pattern n1) db
              = select_airports (like_pattern n2) db).
  { rewrite !select_airports_rows_of. apply flat_map_ext_in.
    intros a Ha. unfold rows_of. now rewrite (H a Ha). }
  rewrite !endpoint_run, S.
  now destruct (unique_scalars_all _).
Qed.

(** X6: the search ignores the case of the query: two query strings that
    differ only in the case of ASCII letters get the same response. *)
Theorem query_case_is_ignored
        (db : Database) (n1 n2 : string) (log : list Statement) :
  lower_string n1 = lower_string n2 ->
  fst (endpoint n1 db log) = fst (endpoint n2 db log).
Proof.
  intros E. apply endpoint_ext. intros a _. apply where_clause_ext. intros t.
  rewrite <- (ilike_match_lower_pattern (like_pattern n1)).
  rewrite <- (ilike_match_lower_pattern (like_pattern n2)).
  now rewrite !lower_string_like_pattern, E.
Qed.

Lemma query_case_is_ignored_witness :
  fst (endpoint "jFk" db_two []) = fst (endpoint "JfK" db_two []).
Proof.
  apply (query_case_is_ignored db_two "jFk" "JfK" []). reflexivity.
Defined.

Lemma ilike_match_percents (n : nat) (t : string) :
  ilike_match (repeat_char wild_many n ++ String wild_many EmptyString) t = true.
Proof.
  induction n as [|n IH]; simpl append.
  - apply ilike_match_only_wild_many.
  - rewrite ilike_match_wild_many. apply any_suffix_true.
    exists EmptyString, t. split; [reflexivity | exact IH].
Qed.

(** X7: a query made of percent signs only returns every airport of the
    store. *)
Theorem percent_only_query_returns_every_airport
        (db : Database) (n : nat) (log : list Statement) (a : Airport.t) :
  airports_pk db ->
  In a (airports db) ->
  included a (fst (endpoint (repeat_char wild_many n) db log)).
Proof.
  intros PK Ha. apply (included_pk _ db log a PK). split; [exact Ha|].
  assert (M : forall t, ilike_match (like_pattern (repeat_char wild_many n)) t = true).
  { intros t. unfold like_pattern. rewrite ilike_match_wild_many.
    apply any_suffix_true. exists EmptyString, t.
    split; [reflexivity | apply ilike_match_percents]. }
  apply where_clause_true. right. apply M.
Qed.

Lemma percent_only_query_returns_every_airport_witness :
  included klax (fst (endpoint "%%" db_two [])).
Proof.
  apply (percent_only_query_returns_every_airport db_two 2 [] klax).
  - repeat constructor; simpl; intuition discriminate.
  - simpl. auto.
Defined.

Lemma ilike_match_underscores (n : nat) (u : string) :
  ilike_match (repeat_char wild_one n ++ String wild_many EmptyString) u
  = (n <=? String.length u)%nat.
Proof.
  revert u. induction n as [|n IH]; intros u; simpl append.
  - apply ilike_match_only_wild_many.
  - rewrite ilike_match_wild_one. destruct u as [|x u]; [reflexivity|].
    rewrite IH. reflexivity.
Qed.

Lemma any_suffix_length (n : nat) (t : string) :
  any_suffix (fun u => (n <=? String.length u)%nat) t = (n <=? String.length t)%nat.
Proof.
  induction t as [|x t IH]; simpl any_suffix.
  - apply orb_false_r.
  - rewrite IH. simpl String.length.
    destruct (Nat.leb_spec n (S (String.length t))),
             (Nat.leb_spec n (String.length t)); try reflexivity; lia.
Qed.

Lemma ilike_match_like_pattern_underscores (n : nat) (t : string) :
  ilike_match (like_pattern (repeat_char wild_one n)) t = (n <=? String.length t)%nat.
Proof.
  unfold like_pattern. rewrite ilike_match_wild_many.
  rewrite <- any_suffix_length. apply any_suffix_ext.
  intros u. apply ilike_match_underscores.
Qed.

(** X8: on ASCII text, a query made of [n] underscores is a test of
    length: it returns exactly the airports whose name or ident has at
    least [n] characters.  (In ASCII text a character is a byte, which is
    what [String.length] counts.) *)
Theorem underscore_query_is_length_test
        (db : Database) (n : nat) (log : list Statement) (a : Airport.t) :
  airports_pk db ->
  In a (airports db) ->
  column_ascii (Airport.name a) = true ->
  ascii_text (Airport.ident a) = true ->
  included a (fst (endpoint (repeat_char wild_one n) db log))
  <-> (column_at_least n (Airport.name a)
       \/ n <= String.length (Airport.ident a)).
Proof.
  intros PK Ha _ _. rewrite (included_pk _ db log a PK), where_clause_true.
  rewrite !ilike_match_like_pattern_underscores, Nat.leb_le.
  unfold column_at_least. split.
  - intros [_ [(t & E & H)|H]]; [left | now right].
    rewrite E. rewrite ilike_match_like_pattern_underscores in H.
    now apply Nat.leb_le.
  - intros H. split; [exact Ha|]. destruct H as [H|H]; [left | now right].
    destruct (Airport.name a) as [t|]; [|destruct H].
    exists t. split; [reflexivity|].
    rewrite ilike_match_like_pattern_underscores. now apply Nat.leb_le.
Qed.

Lemma underscore_query_is_length_test_witness :
  included full_ramp (fst (endpoint "_____" db_ramp []))
  <-> (column_at_least 5 (Airport.name full_ramp)
       \/ 5 <= String.length (Airport.ident full_ramp)).
Proof.
  apply (underscore_query_is_length_test db_ramp 5 [] full_ramp).
  - repeat constructor; simpl; intuition discriminate.
  - simpl. auto.
  - reflexivity.
  - reflexivity.
Defined.

Lemma string_app_assoc (s t u : string) :
  ((s ++ t) ++ u)%string = (s ++ t ++ u)%string.
Proof.
  induction s as [|c s IH]; simpl; [reflexivity | now rewrite IH].
Qed.

(** A plain prefix of a pattern consumes the same prefix of the text. *)
Lemma ilike_match_plain_app (s p u : string) :
  plain s = true ->
  ilike_match (s ++ p) u =
  match strip_prefix_ci s u with
  | Some r => ilike_match p r
  | None => false
  end.
Proof.
  revert u. induction s as [|c s IH]; intros u H; [reflexivity|].
  simpl in H. apply andb_true_iff in H as [Hc Hs]. apply negb_true_iff in Hc.
  change ((String c s ++ p)%string) with (String c (s ++ p)).
  rewrite ilike_match_plain_cons by exact Hc.
  destruct u as [|x u]; simpl; [reflexivity|].
  destruct (char_ieq c x); simpl; [now apply IH | reflexivity].
Qed.

Lemma equal_cib_strip_prefix (s x u : string) :
  match strip_prefix_ci s u with
  | Some r => equal_cib x r
  | None => false
  end = equal_cib (s ++ x) u.
Proof.
  revert u. induction s as [|c s IH]; intros u; simpl; [reflexivity|].
  destruct u as [|y u]; [reflexivity|].
  destruct (char_ieq c y); simpl; [apply IH | reflexivity].
Qed.

Lemma equal_cib_true (s t : string) :
  equal_cib s t = true <-> lower_string t = lower_string s.
Proof.
  revert t. induction s as [|c s IH]; intros [|x t]; simpl;
    try (split; congruence).
  unfold char_ieq. rewrite andb_true_iff, Ascii.eqb_eq, IH. split.
  - intros [-> ->]. reflexivity.
  - intros E. injection E as -> ->. auto.
Qed.

(** An escaped percent sign at the end of a pattern is a literal one. *)
Lemma ilike_match_escaped_percent (r : string) :
  ilike_match (String escape (String wild_many EmptyString)) r
  = equal_cib (String wild_many EmptyString) r.
Proof.
  rewrite ilike_match_escape. destruct r as [|x r]; [reflexivity|].
  simpl. now destruct r.
Qed.

Lemma ilike_match_trailing_escape (s t : string) :
  plain s = true ->
  ilike_match (like_pattern (s ++ String escape EmptyString)) t
  = any_suffix (equal_cib (s ++ String wild_many EmptyString)) t.
Proof.
  intros H. unfold like_pattern. rewrite ilike_match_wild_many.
  apply any_suffix_ext. intros u.
  rewrite string_app_assoc. simpl append at 2.
  rewrite (ilike_match_plain_app s _ u H).
  rewrite <- equal_cib_strip_prefix.
  destruct (strip_prefix_ci s u); [apply ilike_match_escaped_percent | reflexivity].
Qed.

Lemma any_suffix_equal_cib (x t : string) :
  any_suffix (equal_cib x) t = true <-> ends_with_ci x t.
Proof.
  unfold ends_with_ci. rewrite any_suffix_true. split.
  - intros (pre & u & -> & H). apply equal_cib_true in H.
    exists (lower_string pre). now rewrite lower_string_app, H.
  - intros (pre & E).
    apply lower_string_split in E as (t1 & t2 & -> & _ & E2).
    exists t1, t2. split; [reflexivity|]. now apply equal_cib_true.
Qed.

(** X9: a query that ends in a backslash escapes the closing wildcard of
    the pattern.  On ASCII text, for a plain string [s], the query [s\]
    returns exactly the airports whose name or ident ends in [s] followed
    by a percent sign: the match is anchored at the end of the column. *)
Theorem trailing_backslash_query_is_suffix_test
        (db : Database) (s : string) (log : list Statement) (a : Airport.t) :
  airports_pk db ->
  plain s = true ->
  ascii_text s = true ->
  In a (airports db) ->
  column_ascii (Airport.name a) = true ->
  ascii_text (Airport.ident a) = true ->
  included a (fst (endpoint (s ++ String escape EmptyString) db log))
  <-> (column_ends_with_ci (s ++ String wild_many EmptyString) (Airport.name a)
       \/ ends_with_ci (s ++ String wild_many EmptyString) (Airport.ident a)).
Proof.
  intros PK Hs _ Ha _ _. rewrite (included_pk _ db log a PK), where_clause_true.
  rewrite (ilike_match_trailing_escape s (Airport.ident a) Hs), any_suffix_equal_cib.
  unfold column_ends_with_ci. split.
  - intros [_ [(t & E & H)|H]]; [left | now right].
    rewrite E. rewrite (ilike_match_trailing_escape s t Hs) in H.
    now apply any_suffix_equal_cib.
  - intros H. split; [exact Ha|]. destruct H as [H|H]; [left | now right].
    destruct (Airport.name a) as [t|]; [|destruct H].
    exists t. split; [reflexivity|].
    rewrite (ilike_match_trailing_escape s t Hs). now apply any_suffix_equal_cib.
Qed.

Lemma trailing_backslash_query_is_suffix_test_witness :
  (included full_ramp (fst (endpoint "100\" db_ramp []))
   <-> (column_ends_with_ci "100%" (Airport.name full_ramp)
        \/ ends_with_ci "100%" (Airport.ident full_ramp)))
  /\ fst (endpoint "100\" db_ramp [])
     = Return [schema_of db_ramp (loaded_of db_ramp full_ramp)]
  /\ fst (endpoint "JFK\" db_ramp []) = Raise not_found.
Proof.
  split; [|split; reflexivity].
  apply (trailing_backslash_query_is_suffix_test db_ramp "100" [] full_ramp).
  - repeat constructor; simpl; intuition discriminate.
  - reflexivity.
  - reflexivity.
  - simpl. auto.
  - reflexivity.
  - reflexivity.
Defined.

Lemma contains_ci_trans (s1 s2 t : string) :
  contains_ci s1 s2 -> contains_ci s2 t -> contains_ci s1 t.
Proof.
  intros (p1 & q1 & E1) (p2 & q2 & E2).
  exists (p2 ++ p1)%string, (q1 ++ q2)%string.
  rewrite E2, E1. now rewrite !string_app_assoc.
Qed.

(** X10: lengthening a plain query narrows the result: when the plain query
    [s1] occurs inside the plain query [s2], every airport returned for
    [s2] is returned for [s1]. *)
Theorem longer_plain_query_narrows
        (db : Database) (s1 s2 : string) (log1 log2 : list Statement)
        (a : Airport.t) :
  airports_pk db ->
  plain s1 = true ->
  plain s2 = true ->
  contains_ci s1 s2 ->
  included a (fst (endpoint s2 db log2)) ->
  included a (fst (endpoint s1 db log1)).
Proof.
  intros PK H1 H2 C.
  rewrite (included_pk s2 db log2 a PK), (included_pk s1 db log1 a PK).
  rewrite (where_clause_plain s2 a H2), (where_clause_plain s1 a H1).
  rewrite !orb_true_iff, !column_contains_cib_true, !contains_cib_true.
  intros [Ha [H|H]]; (split; [exact Ha|]).
  - left. destruct (Airport.name a) as [t|]; [|destruct H].
    simpl in *. eapply contains_ci_trans; eassumption.
  - right. eapply contains_ci_trans; eassumption.
Qed.

Lemma longer_plain_query_narrows_witness :
  included klax (fst (endpoint "angel" db_two [])).
Proof.
  apply (longer_plain_query_narrows db_two "angel" "Los Angeles" [] [] klax).
  - repeat constructor; simpl; intuition discriminate.
  - reflexivity.
  - reflexivity.
  - apply contains_cib_true. reflexivity.
  - apply (included_pk "Los Angeles" db_two [] klax).
    + repeat constructor; simpl; intuition discriminate.
    + split; [simpl; auto | reflexivity].
Defined.

(* ------------------------------------------------------------------ *)
(** * More on the result of the query *)
(* ------------------------------------------------------------------ *)

Lemma unique_idents (rows : list JoinedRow) (seen : list string) :
  NoDup (map (fun r => Airport.ident (row_airport r)) (unique seen rows))
  /\ forall r, In r (unique seen rows) ->
               ~ In (Airport.ident (row_airport r)) seen.
Proof.
  revert seen. induction rows as [|x rows IH]; intros seen; simpl.
  - split; [constructor | intros r []].
  - destruct (existsb _ seen) eqn:E; [apply IH|].
    destruct (IH (Airport.ident (row_airport x) :: seen)) as [ND Hs].
    apply existsb_eqb_false in E. split.
    + simpl. constructor; [|exact ND].
      intros Hin. apply in_map_iff in Hin as (r & Er & Hr).
      apply (Hs r Hr). left. now rewrite Er.
    + intros r [<-|Hr]; [exact E|].
      intros Hin. apply (Hs r Hr). now right.
Qed.

Lemma unique_complete (rows : list JoinedRow) (seen : list string) (r : JoinedRow) :
  In r rows ->
  In (Airport.ident (row_airport r)) seen
  \/ In (Airport.ident (row_airport r))
        (map (fun x => Airport.ident (row_airport x)) (unique seen rows)).
Proof.
  revert seen. induction rows as [|x rows IH]; intros seen Hr; [destruct Hr|].
  simpl. destruct (existsb _ seen) eqn:E.
  - destruct Hr as [->|Hr]; [|now apply IH].
    left. apply existsb_exists in E as (i & Hi & Ei).
    apply String.eqb_eq in Ei. now rewrite Ei.
  - destruct Hr as [->|Hr]; [right; now left|].
    destruct (IH (Airport.ident (row_airport x) :: seen) Hr) as [[Ei|Hs]|Hu].
    + right. left. exact Ei.
    + now left.
    + right. now right.
Qed.

Lemma response_idents_endpoint (name : string) (db : Database) (log : list Statement) :
  response_idents (fst (endpoint name db log))
  = map (fun r => Airport.ident (row_airport r))
        (unique [] (select_airports (like_pattern name) db)).
Proof.
  rewrite endpoint_run. unfold unique_scalars_all.
  destruct (unique [] (select_airports (like_pattern name) db)) as [|r rs];
    [reflexivity|].
  cbn [map fst response_idents]. f_equal.
  now rewrite !map_map.
Qed.

Lemma response_idents_NoDup (db : Database) (name : string) (log : list Statement) :
  NoDup (response_idents (fst (endpoint name db log))).
Proof.
  rewrite response_idents_endpoint. apply unique_idents.
Qed.

(** X12: whatever the store holds, also one that breaks the primary key of
    [airports], the idents of a response are pairwise distinct, and they
    are exactly the idents of the rows that pass the filter. *)
Theorem response_idents_are_the_matching_idents
        (db : Database) (name : string) (log : list Statement) :
  NoDup (response_idents (fst (endpoint name db log)))
  /\ forall i,
       In i (response_idents (fst (endpoint name db log)))
       <-> exists a, In a (airports db) /\ Airport.ident a = i
                     /\ where_clause (like_pattern name) a = true.
Proof.
  split; [apply response_idents_NoDup|].
  rewrite response_idents_endpoint.
  intros i. rewrite in_map_iff. split.
  - intros (r & <- & Hr). apply in_unique in Hr.
    apply in_select_airports in Hr as (a & o & Ha & Hw & _ & ->).
    exists a. auto.
  - intros (a & Ha & <- & Hw).
    destruct (outer_join_navaids_cons db a) as (o & os & Eo).
    set (r := mk_row a (join_airport_type db a) (join_country db a)
                     (join_region db a) o).
    assert (Hr : In r (select_airports (like_pattern name) db)).
    { apply in_select_airports. exists a, o. rewrite Eo. simpl. auto. }
    destruct (unique_complete _ [] r Hr) as [[]|H].
    apply in_map_iff in H as (x & Ex & Hx). exists x. split; assumption.
Qed.

Lemma NoDup_map_In_inj {A B : Type} (f : A -> B) (l : list A) (x y : A) :
  NoDup (map f l) -> In x l -> In y l -> f x = f y -> x = y.
Proof.
  induction l as [|z l IH]; simpl; intros ND Hx Hy E; [destruct Hx|].
  inversion ND as [|? ? Hnot ND']; subst.
  destruct Hx as [->|Hx], Hy as [->|Hy]; auto.
  - exfalso. apply Hnot. rewrite E. now apply in_map.
  - exfalso. apply Hnot. rewrite <- E. now apply in_map.
Qed.

Lemma sql_eq_column_true (column : option string) (i : string) :
  is_true (sql_eq column (Some i)) = true -> column = Some i.
Proof.
  destruct column as [s|]; simpl; [|discriminate].
  destruct (String.eqb_spec s i); [congruence | discriminate].
Qed.

(** The foreign column of every child row of a response object holds the
    ident of the object. *)
Lemma object_children (name : string) (db : Database) (log : list Statement)
      (l : list AirportSchema.t) (v : AirportSchema.t) :
  fst (endpoint name db log) = Return l ->
  In v l ->
  (forall r, In r (AirportSchema.runways v) ->
             Runway.airport_ident r = Some (AirportSchema.ident v))
  /\ (forall f, In f (AirportSchema.frequencies v) ->
                Frequency.airport_ident f = Some (AirportSchema.ident v))
  /\ (forall n, In n (AirportSchema.navaids v) ->
                Navaid.associated_airport n = Some (AirportSchema.ident v)).
Proof.
  intros E Hv.
  destruct (endpoint_object name db log l v E Hv) as (a & Ha & Hw & ->).
  simpl. repeat split.
  - intros r Hr. apply filter_In in Hr as [_ Hr]. now apply sql_eq_column_true.
  - intros f Hf. apply filter_In in Hf as [_ Hf]. now apply sql_eq_column_true.
  - intros n Hn.
    now apply (in_collect_navaids_select db (like_pattern name) a n Ha Hw) in Hn.
Qed.

(** X13: no runway, frequency or navaid is listed under two different
    objects of one response, whatever the store holds. *)
Theorem child_row_under_one_object
        (db : Database) (name : string) (log : list Statement)
        (l : list AirportSchema.t) (v1 v2 : AirportSchema.t) :
  fst (endpoint name db log) = Return l ->
  In v1 l ->
  In v2 l ->
  ((exists r, In r (AirportSchema.runways v1) /\ In r (AirportSchema.runways v2))
   \/ (exists f, In f (AirportSchema.frequencies v1)
                 /\ In f (AirportSchema.frequencies v2))
   \/ (exists n, In n (AirportSchema.navaids v1)
                 /\ In n (AirportSchema.navaids v2))) ->
  v1 = v2.
Proof.
  intros E H1 H2 H.
  destruct (object_children name db log l v1 E H1) as (R1 & F1 & N1).
  destruct (object_children name db log l v2 E H2) as (R2 & F2 & N2).
  assert (Ei : AirportSchema.ident v1 = AirportSchema.ident v2).
  { destruct H as [(r & A & B)|[(f & A & B)|(n & A & B)]].
    - specialize (R1 r A). specialize (R2 r B). congruence.
    - specialize (F1 f A). specialize (F2 f B). congruence.
    - specialize (N1 n A). specialize (N2 n B). congruence. }
  pose proof (response_idents_NoDup db name log) as ND.
  rewrite E in ND. simpl in ND.
  exact (NoDup_map_In_inj AirportSchema.ident l v1 v2 ND H1 H2 Ei).
Qed.

Lemma child_row_under_one_object_witness :
  schema_of db_two (loaded_of db_two klax) = schema_of db_two (loaded_of db_two klax).
Proof.
  apply (child_row_under_one_object db_two "intl" []
           [schema_of db_two (loaded_of db_two kjfk);
            schema_of db_two (loaded_of db_two klax)]
           (schema_of db_two (loaded_of db_two klax))
           (schema_of db_two (loaded_of db_two klax))
           eq_refl (or_intror (or_introl eq_refl))
           (or_intror (or_introl eq_refl))).
  left. exists (runway_row 2%Z (Some "KLAX")). split; simpl; auto.
Defined.

(* ------------------------------------------------------------------ *)
(** * The statements of a request *)
(* ------------------------------------------------------------------ *)

Lemma verify_api_key_active (db : Database) (k : string) (log : list Statement) :
  k <> EmptyString ->
  active_key db k ->
  verify_api_key (Some k) db log = (Return tt, log ++ [SelectAPIKey k]).
Proof.
  intros Hk Ha. rewrite verify_api_key_run.
  apply truthy_some in Hk. rewrite Hk. simpl.
  apply find_api_key_some in Ha as (r & ->). reflexivity.
Qed.

Lemma flat_map_lazy_loads (db : Database) (l : list Airport.loaded) :
  flat_map lazy_loads l = flat_map object_loads (map (schema_of db) l).
Proof.
  induction l as [|x l IH]; simpl; [reflexivity | now rewrite IH].
Qed.

Lemma length_flat_map_object_loads (l : list AirportSchema.t) :
  List.length (flat_map object_loads l) = 2 * List.length l.
Proof.
  induction l as [|v l IH]; simpl; [reflexivity|]. rewrite IH. lia.
Qed.

(** The route with its log, in terms of the response objects. *)
Lemma endpoint_found_log (name : string) (db : Database) (log : list Statement) :
  (exists a, In a (airports db) /\ where_clause (like_pattern name) a = true) ->
  exists l,
    l <> []
    /\ endpoint name db log
       = (Return l,
          log ++ [SelectAirports (like_pattern name)] ++ flat_map object_loads l).
Proof.
  intros H. destruct (endpoint_found name db log H) as (l & E & Hl).
  exists l. split; [exact Hl|].
  rewrite endpoint_run in *.
  destruct (unique_scalars_all _) as [|x xs]; simpl in E; [discriminate|].
  injection E as <-.
  now rewrite (flat_map_lazy_loads db), <- app_assoc.
Qed.

Lemma endpoint_not_found_log (name : string) (db : Database) (log : list Statement) :
  (forall a, In a (airports db) -> where_clause (like_pattern name) a = false) ->
  endpoint name db log
  = (Raise not_found, log ++ [SelectAirports (like_pattern name)]).
Proof.
  intros H. apply (endpoint_not_found name db log) in H.
  rewrite endpoint_run in *.
  destruct (unique_scalars_all _); simpl in H; [reflexivity | discriminate].
Qed.



Lemma endpoint_fst_log (name : string) (db : Database) (log1 log2 : list Statement) :
  fst (endpoint name db log1) = fst (endpoint name db log2).
Proof.
  rewrite !endpoint_run. now destruct (unique_scalars_all _).
Qed.

(** X2: the response to an authorized request does not depend on which
    active key was presented: two requests for the same name under any
    two active keys get the same response. *)
Theorem response_independent_of_the_active_key
        (db : Database) (k1 k2 query : string) :
  k1 <> EmptyString ->
  k2 <> EmptyString ->
  active_key db k1 ->
  active_key db k2 ->
  fst (app (mk_request (Some k1) query) db)
  = fst (app (mk_request (Some k2) query) db).
Proof.
  intros H1 H2 A1 A2. rewrite !app_run. simpl x_api_key.
  rewrite (verify_api_key_active db k1 [] H1 A1).
  rewrite (verify_api_key_active db k2 [] H2 A2).
  simpl name.
  pose proof (endpoint_fst_log query db ([] ++ [SelectAPIKey k1])
                               ([] ++ [SelectAPIKey k2])) as E.
  destruct (endpoint query db ([] ++ [SelectAPIKey k1])) as [[l1|e1] g1],
           (endpoint query db ([] ++ [SelectAPIKey k2])) as [[l2|e2] g2];
    simpl in E; try discriminate; now injection E as ->.
Qed.

Lemma response_independent_of_the_active_key_witness :
  fst (app (mk_request (Some "live-key") "jfk") db_two_keys)
  = fst (app (mk_request (Some "second-key") "jfk") db_two_keys).
Proof.
  apply (response_independent_of_the_active_key db_two_keys
           "live-key" "second-key" "jfk").
  - discriminate.
  - discriminate.
  - exists (APIKey.mk 1%Z "live-key" (Some true)). simpl. auto.
  - exists (APIKey.mk 4%Z "second-key" (Some true)). simpl. auto.
Defined.

(* ------------------------------------------------------------------ *)
(** * The two sides of a relationship *)
(* ------------------------------------------------------------------ *)

Section Relationship.

Context {P C : Type} (key : P -> string) (fk : C -> option string).

Lemma in_one_to_many (children : list C) (p : P) (c : C) :
  In c (one_to_many key fk children p) <->
  In c children /\ fk c = Some (key p).
Proof.
  unfold one_to_many. rewrite filter_In. split.
  - intros [H E]. split; [exact H | now apply sql_eq_column_true].
  - intros [H E]. split; [exact H|]. rewrite E. simpl.
    now rewrite String.eqb_refl.
Qed.

Lemma many_to_one_some (parents : list P) (c : C) (p : P) :
  many_to_one key fk parents c = Some p ->
  In p parents /\ fk c = Some (key p).
Proof.
  unfold many_to_one. intros H. apply find_some in H as [Hin H].
  split; [exact Hin | now apply sql_eq_column_true].
Qed.

(** With a unique key on the parent table, a child is in the collection
    of a parent exactly when that parent is the scalar side of the
    child. *)
Lemma back_populates (parents : list P) (children : list C) (p : P) (c : C) :
  NoDup (map key parents) ->
  In p parents ->
  In c children ->
  In c (one_to_many key fk children p) <-> many_to_one key fk parents c = Some p.
Proof.
  intros ND Hp Hc. rewrite in_one_to_many. split.
  - intros [_ E]. unfold many_to_one. now apply find_by_code.
  - intros H. apply many_to_one_some in H as [_ E]. auto.
Qed.

End Relationship.

Lemma airport_navaids_one_to_many (db : Database) (a : Airport.t) :
  airport_navaids db a
  = one_to_many Airport.ident Navaid.associated_airport (navaids db) a.
Proof.
  unfold airport_navaids, one_to_many. apply filter_ext. intros n.
  unfold navaid_join. destruct (Navaid.associated_airport n) as [s|]; simpl;
    [|reflexivity].
  now rewrite String.eqb_sym.
Qed.

(** X14: the relationships between [airports] and its three child tables
    agree in both directions.  With [ident] the primary key, a frequency,
    runway or navaid of the store is in the collection of an airport
    exactly when that airport is what the [airport] attribute of the row
    resolves to. *)
Theorem airport_children_back_populate (db : Database) (a : Airport.t) :
  airports_pk db ->
  In a (airports db) ->
  (forall f, In f (frequencies db) ->
             (In f (airport_frequencies db a) <-> frequency_airport db f = Some a))
  /\ (forall r, In r (runways db) ->
                (In r (airport_runways db a) <-> runway_airport db r = Some a))
  /\ (forall n, In n (navaids db) ->
                (In n (airport_navaids db a) <-> navaid_airport db n = Some a)).
Proof.
  intros PK Ha. split; [|split].
  - intros f Hf. now apply back_populates.
  - intros r Hr. now apply back_populates.
  - intros n Hn. rewrite airport_navaids_one_to_many. now apply back_populates.
Qed.

Lemma airport_children_back_populate_witness :
  (In (navaid_row 3%Z (Some "KLAX")) (airport_navaids db_two klax)
   <-> navaid_airport db_two (navaid_row 3%Z (Some "KLAX")) = Some klax)
  /\ (In (runway_row 1%Z (Some "KJFK")) (airport_runways db_two klax)
      <-> runway_airport db_two (runway_row 1%Z (Some "KJFK")) = Some klax).
Proof.
  assert (PK : airports_pk db_two)
    by (repeat constructor; simpl; intuition discriminate).
  assert (Ha : In klax (airports db_two)) by (simpl; auto).
  split.
  - apply (proj2 (proj2 (airport_children_back_populate db_two klax PK Ha))).
    simpl. auto.
  - apply (proj1 (proj2 (airport_children_back_populate db_two klax PK Ha))).
    simpl. auto.
Defined.

(** X15: the relationships between [airports] and the three reference
    tables agree in both directions.  With [code] their primary key, an
    airport of the store is in the [airports] collection of an airport
    type, country or region exactly when that row is what the airport's
    [airport_type], [country] or [region] resolves to. *)
Theorem reference_rows_back_populate (db : Database) (a : Airport.t) :
  airport_types_pk db ->
  countries_pk db ->
  regions_pk db ->
  In a (airports db) ->
  (forall t, In t (airport_types db) ->
             (In a (airport_type_airports db t) <-> join_airport_type db a = Some t))
  /\ (forall c, In c (countries db) ->
                (In a (country_airports db c) <-> join_country db a = Some c))
  /\ (forall r, In r (regions db) ->
                (In a (region_airports db r) <-> join_region db a = Some r)).
Proof.
  intros PT PC PR Ha. split; [|split].
  - intros t Ht. now apply (back_populates AirportType.code Airport.type).
  - intros c Hc. now apply (back_populates Country.code Airport.iso_country).
  - intros r Hr. now apply (back_populates Region.code Airport.iso_region).
Qed.

Lemma reference_rows_back_populate_witness :
  In klax (country_airports db_two us) <-> join_country db_two klax = Some us.
Proof.
  apply (proj1 (proj2 (reference_rows_back_populate db_two klax
                         ltac:(repeat constructor; simpl; intuition discriminate)
                         ltac:(repeat constructor; simpl; intuition discriminate)
                         ltac:(repeat constructor; simpl; intuition discriminate)
                         ltac:(simpl; auto)))).
  simpl. auto.
Defined.

(** X16: the relationship between [navaids] and [navid_types] agrees in
    both directions: with [code] the primary key of [navid_types], a
    navaid of the store is in the [navaid] collection of a type exactly
    when that type is what the navaid's [navaid_type] resolves to; a
    navaid with a NULL type belongs to no type. *)
Theorem navaid_type_back_populates (db : Database) (n : Navaid.t) (t : NavidType.t) :
  navid_types_pk db ->
  In n (navaids db) ->
  In t (navid_types db) ->
  (In n (navid_type_navaid db t) <-> navaid_navaid_type db n = Some t)
  /\ (Navaid.type n = None ->
      ~ In n (navid_type_navaid db t) /\ navaid_navaid_type db n = None).
Proof.
  intros PK Hn Ht. split.
  - now apply back_populates.
  - intros E. split.
    + intros H. apply in_one_to_many in H as [_ H]. congruence.
    + unfold navaid_navaid_type, many_to_one. apply find_by_code_none.
      intros x _. rewrite E. discriminate.
Qed.

Lemma navaid_type_back_populates_witness :
  In lax_vor (navid_type_navaid db_vor vor)
  <-> navaid_navaid_type db_vor lax_vor = Some vor.
Proof.
  apply (proj1 (navaid_type_back_populates db_vor lax_vor vor
                  ltac:(repeat constructor; simpl; intuition discriminate)
                  ltac:(simpl; auto) ltac:(simpl; auto))).
Defined.

(* ------------------------------------------------------------------ *)
(** * The route as a filter *)
(* ------------------------------------------------------------------ *)



Lemma rejection_independent_of_store_witness :
  fst (app (mk_request (Some "old-key") "JFK") db_jfk)
  = fst (app (mk_request (Some "old-key") "JFK") (db_blank true)).
Proof.
  apply (rejection_independent_of_store (mk_request (Some "old-key") "JFK")
           db_jfk (db_blank true)).
  intros k E. injection E as <-. split.
  - intros (r & [<-|[<-|[]]] & Hk & Ha); simpl in *; discriminate.
  - intros (r & [<-|[]] & Hk & Ha); simpl in *; discriminate.
Defined.

(* ------------------------------------------------------------------ *)
(** * The session dependency *)
(* ------------------------------------------------------------------ *)

Lemma drive_finished (ops : list GeneratorOp) :
  drive Finished ops = (Finished, []).
Proof.
  induction ops as [|op ops IH]; [reflexivity|].
  simpl. destruct op; simpl; now rewrite IH.
Qed.

Lemma drive_suspended (ops : list GeneratorOp) :
  drive Suspended ops
  = match ops with
    | [] => (Suspended, [])
    | _ :: _ => (Finished, [SessionClose])
    end.
Proof.
  destruct ops as [|op ops]; [reflexivity|].
  simpl. destruct op; simpl; now rewrite drive_finished.
Qed.

(** X4: however [get_db] is driven, it makes at most one session, and
    it closes that session exactly once as soon as it is resumed, thrown
    into or closed after the yield: a finished generator has closed the
    session it made, a session is never closed twice and never closed
    before it is made, and a generator that is closed or thrown into
    before its first step makes no session at all. *)
Theorem get_db_closes_its_session (ops : list GeneratorOp) :
  match drive NotStarted ops with
  | (NotStarted, events) => ops = [] /\ events = []
  | (Suspended, events) => ops = [Next] /\ events = [SessionLocal]
  | (Finished, events) =>
      match ops with
      | Next :: _ :: _ => events = [SessionLocal; SessionClose]
      | _ => events = []
      end
  end.
Proof.
  destruct ops as [|op ops]; [now split|].
  destruct op; simpl.
  - rewrite drive_suspended. destruct ops; simpl; [now split | reflexivity].
  - now rewrite drive_finished.
  - now rewrite drive_finished.
Qed.

(* ------------------------------------------------------------------ *)
(** * The outcomes of an authorized request *)
(* ------------------------------------------------------------------ *)

Lemma serve_authorized (req : Request) (db : Database) :
  fst (verify_api_key (x_api_key req) db []) = Return tt ->
  fst (serve req db) =
  if has_nul (name req) then InternalServerError
  else
    match fst (endpoint (name req) db (snd (verify_api_key (x_api_key req) db []))) with
    | Return l =>
        if forallb renders l then Rendered (mk_response HTTP_200_OK (Airports l))
        else InternalServerError
    | Raise e => Rendered (mk_response (status_code e) (Detail (detail e)))
    end.
Proof.
  intros H. unfold serve. rewrite app_run.
  destruct (verify_api_key (x_api_key req) db []) as [[u|e] log];
    simpl in H; [|discriminate].
  destruct (has_nul (name req)); [reflexivity|]. simpl snd.
  destruct (endpoint (name req) db log) as [[l|e] log']; simpl; [|reflexivity].
  now destruct (forallb renders l).
Qed.

(** Every row that passes the filter has its ident in the response. *)
Lemma matching_ident_in_response (name : string) (db : Database)
      (log : list Statement) (l : list AirportSchema.t) (a : Airport.t) :
  fst (endpoint name db log) = Return l ->
  In a (airports db) ->
  where_clause (like_pattern name) a = true ->
  In (Airport.ident a) (map AirportSchema.ident l).
Proof.
  intros E Ha Hw.
  pose proof (response_idents_endpoint name db log) as R.
  rewrite E in R. simpl in R. rewrite R.
  destruct (outer_join_navaids_cons db a) as (o & os & Eo).
  set (r := mk_row a (join_airport_type db a) (join_country db a)
                   (join_region db a) o).
  assert (Hr : In r (select_airports (like_pattern name) db)).
  { apply in_select_airports. exists a, o. rewrite Eo. simpl. auto. }
  destruct (unique_complete _ [] r Hr) as [[]|H]. exact H.
Qed.



